(** * RoadNetworkPartitioning: partition quality and the synthetic generator

  A shallow embedding of [Scripts/partitions_quality.py] (its three
  functions and the statements that call them), of
  [Scripts/generate_geojson.py] and of [Scripts/format.py].

  Conventions of the embedding.
  - Text is [string]; a character stands for a code point below 256.
    Code points above U+00FF are outside the model.
  - A text file is the list of lines that iterating over it (or
    [readlines]) yields; a file that cannot be opened or decoded is an
    exception value.
  - A Python [dict] is an association list in insertion order
    ([dict_set] keeps the position of a key that is already present).
    The keys of a dict are pairwise distinct; properties of functions
    that receive a dict assume [NoDup (dict_keys d)] where they need it.
  - A Python [set] is a [gset]; [list(s)] and iteration over a set are
    [elements s], whose order is as unspecified as Python's.
  - Python integers are [Z].
  - [print] appends a line to the output that a function returns next to
    its value.
  - [random] is an explicit source of draws handed to the generator. *)

From stdpp Require Import gmap strings list pretty.
From Stdlib Require Import ZArith Ascii String Lia.

Local Open Scope string_scope.

(** ** Python values shared by the scripts *)

Module Py.

(** Exceptions that the modelled code can meet.  All derive from
    [Exception], so [except Exception] catches each of them. *)
Inductive exn : Type :=
| OSError (what : string)
| UnicodeDecodeError (what : string)
| KeyError
| ValueError (msg : string).

(** [str(e)], as interpolated into the printed messages. *)
Definition str (e : exn) : string :=
  match e with
  | OSError what => what
  | UnicodeDecodeError what => what
  | KeyError => "KeyError"
  | ValueError msg => msg
  end.

(** Message of [max]/[min] on an empty iterable (CPython's wording). *)
Definition msg_empty_max : string := "max() arg is an empty sequence".
Definition msg_empty_min : string := "min() arg is an empty sequence".

(** Message of [random.sample] when the population is smaller than the
    sample (CPython's wording). *)
Definition msg_sample : string := "Sample larger than population or is negative".

(** [max(values)]: the first item is the candidate, a later item replaces
    it only when strictly greater. *)
Definition max (values : list Z) : exn + Z :=
  match values with
  | [] => inl (ValueError msg_empty_max)
  | v :: rest => inr (fold_left (fun m x => if (x >? m)%Z then x else m) rest v)
  end.

(** [min(values)]: a later item replaces the candidate only when strictly
    smaller. *)
Definition min (values : list Z) : exn + Z :=
  match values with
  | [] => inl (ValueError msg_empty_min)
  | v :: rest => inr (fold_left (fun m x => if (x <? m)%Z then x else m) rest v)
  end.

End Py.

(** ** Insertion-ordered dictionaries *)

Module Dict.
Section Dict.
Context {K V : Type} `{EqDecision K}.

(** [d.get(k)] *)
Fixpoint dict_get (k : K) (d : list (K * V)) : option V :=
  match d with
  | [] => None
  | (k', v) :: rest => if decide (k = k') then Some v else dict_get k rest
  end.

(** [d[k] = v]: overwrite in place, or append a new key at the end. *)
Fixpoint dict_set (k : K) (v : V) (d : list (K * V)) : list (K * V) :=
  match d with
  | [] => [(k, v)]
  | (k', v') :: rest =>
      if decide (k = k') then (k, v) :: rest else (k', v') :: dict_set k v rest
  end.

(** Iteration over a dict yields its keys; [d.values()] its values. *)
Definition dict_keys (d : list (K * V)) : list K := map fst d.
Definition dict_values (d : list (K * V)) : list V := map snd d.

End Dict.
End Dict.

Abbreviation dict K V := (list (K * V)).

(** ** Text: [str.strip] and the two regular expressions *)

Module Text.

Definition dquote : ascii := "034"%char.

(** A name between double quotes. *)
Definition quoted (name : string) : string :=
  String dquote (name +:+ String dquote "").

(** Whitespace of [str.strip()] and of [\s] in a [str] pattern, for code
    points below 256: TAB LF VT FF CR, FS GS RS US, SPACE, NEL, NBSP. *)
Definition is_space (c : ascii) : bool :=
  let n := nat_of_ascii c in
  (Nat.leb 9 n && Nat.leb n 13) || (Nat.leb 28 n && Nat.leb n 32)
  || Nat.eqb n 133 || Nat.eqb n 160.

(** The class [[\d.]]: a decimal digit or a dot. *)
Definition is_num (c : ascii) : bool :=
  let n := nat_of_ascii c in
  (Nat.leb 48 n && Nat.leb n 57) || Nat.eqb n 46.

Fixpoint lstrip (s : string) : string :=
  match s with
  | String c s' => if is_space c then lstrip s' else s
  | EmptyString => EmptyString
  end.

Fixpoint rstrip (s : string) : string :=
  match s with
  | EmptyString => EmptyString
  | String c s' =>
      match rstrip s' with
      | EmptyString => if is_space c then EmptyString else String c EmptyString
      | r => String c r
      end
  end.

(** [line.strip()] *)
Definition strip (s : string) : string := rstrip (lstrip s).

(** The rest of [s] after the literal [lit], when [s] starts with it. *)
Fixpoint after_literal (lit s : string) : option string :=
  match lit, s with
  | EmptyString, _ => Some s
  | String a lit', String b s' =>
      if Ascii.eqb a b then after_literal lit' s' else None
  | String _ _, EmptyString => None
  end.

(** The longest prefix of [s] made of [[\d.]] characters. *)
Fixpoint take_num (s : string) : string :=
  match s with
  | String c s' => if is_num c then String c (take_num s') else EmptyString
  | EmptyString => EmptyString
  end.

(** [label\s*([\d.]+)] anchored at the start of [s]; the result is group 1.
    [\s*] and [[\d.]+] are greedy and their classes are disjoint, so the
    only candidate is: all the whitespace, then the longest numeric run,
    which must not be empty. *)
Definition match_here (label s : string) : option string :=
  match after_literal label s with
  | Some rest =>
      match take_num (lstrip rest) with
      | EmptyString => None
      | tok => Some tok
      end
  | None => None
  end.

(** [re.search(label\s*([\d.]+), s)]: the leftmost match, group 1. *)
Fixpoint re_search (label s : string) : option string :=
  match match_here label s with
  | Some tok => Some tok
  | None =>
      match s with
      | EmptyString => None
      | String _ s' => re_search label s'
      end
  end.

(** The literal parts of the two patterns. *)
Definition init_label : string := quoted "init_node" +:+ ":".
Definition term_label : string := quoted "term_node" +:+ ":".

(** A line fragment [ "name": value ], used to write example files. *)
Definition field (name value : string) : string :=
  quoted name +:+ ": " +:+ value.

End Text.

(** ** partitions_quality.py *)

Module PartitionsQuality.
Import Py Dict Text.

(** The files the script can see: a path gives the lines of the file, or
    the exception that [open] or the decoding of its content raises. *)
Definition filesystem : Type := string -> exn + list string.

(** Body of [for line in file] in the node extractor. *)
Definition extract_line (unique_nodes_set : gset string) (line : string)
  : gset string :=
  let line := strip line in
  let unique_nodes_set :=
    match re_search init_label line with
    | Some group1 => {[group1]} ∪ unique_nodes_set
    | None => unique_nodes_set
    end in
  match re_search term_label line with
  | Some group1 => {[group1]} ∪ unique_nodes_set
  | None => unique_nodes_set
  end.

(** The [for file_path in files] loop inside [try].  An exception leaves
    the loop for the handler, which prints and returns [all_nodes] as it
    stands. *)
Fixpoint extract_loop (fs : filesystem) (files : list string)
    (all_nodes : dict string (list string))
  : dict string (list string) * list string :=
  match files with
  | [] => (all_nodes, [])
  | file_path :: files' =>
      match fs file_path with
      | inl e => (all_nodes, ["Error processing files: " +:+ str e])
      | inr lines =>
          let unique_nodes_set := fold_left extract_line lines ∅ in
          extract_loop fs files'
            (dict_set file_path (elements unique_nodes_set) all_nodes)
      end
  end.

Definition extract_unique_nodes_from_multiple_files
    (fs : filesystem) (files : list string)
  : dict string (list string) * list string :=
  extract_loop fs files [].

(** [max] and [min] are not guarded: their exception leaves the function. *)
Definition count_nodes_in_partitions_and_diff
    (nodes_by_partition : dict string (list string))
  : exn + (dict string Z * Z) :=
  let node_counts :=
    fold_left (fun node_counts '(file, nodes) =>
                 dict_set file (Z.of_nat (List.length nodes)) node_counts)
              nodes_by_partition [] in
  match Py.max (dict_values node_counts) with
  | inl e => inl e
  | inr max_nodes =>
      match Py.min (dict_values node_counts) with
      | inl e => inl e
      | inr min_nodes => inr (node_counts, (max_nodes - min_nodes)%Z)
      end
  end.

(** [x in nodes] on a list of strings. *)
Definition node_in (x : string) (nodes : list string) : bool :=
  bool_decide (x ∈ nodes).

(** [cut_edges_count[file] += 1].  The key is always present, because the
    counters are created from the keys that the loop iterates over; the
    [None] branch stands for the [KeyError] that cannot occur. *)
Definition dict_incr (file : string) (cut_edges_count : dict string Z)
  : dict string Z :=
  match dict_get file cut_edges_count with
  | Some n => dict_set file (n + 1)%Z cut_edges_count
  | None => cut_edges_count
  end.

(** The [for file, nodes in nodes_by_partition.items()] loop for one edge. *)
Definition count_edge (init_node term_node : string)
    (nodes_by_partition : dict string (list string))
    (cut_edges_count : dict string Z) : dict string Z :=
  fold_left
    (fun cut_edges_count '(file, nodes) =>
       if node_in init_node nodes && negb (node_in term_node nodes)
       then dict_incr file cut_edges_count
       else if node_in term_node nodes && negb (node_in init_node nodes)
       then dict_incr file cut_edges_count
       else cut_edges_count)
    nodes_by_partition cut_edges_count.

(** Body of [for line in graph_data]. *)
Definition count_line (nodes_by_partition : dict string (list string))
    (cut_edges_count : dict string Z) (line : string) : dict string Z :=
  let line := strip line in
  match re_search init_label line, re_search term_label line with
  | Some init_node, Some term_node =>
      count_edge init_node term_node nodes_by_partition cut_edges_count
  | _, _ => cut_edges_count
  end.

Definition opt_gt (a b : option Z) : bool :=
  match a, b with
  | Some x, Some y => (x >? y)%Z
  | _, _ => false
  end.

(** [max(d, key=d.get)]: keys in insertion order, the first one is the
    candidate and a later key replaces it only when its value is strictly
    greater. *)
Definition max_key (d : dict string Z) : exn + string :=
  match dict_keys d with
  | [] => inl (ValueError msg_empty_max)
  | k :: rest =>
      inr (fold_left
             (fun best x => if opt_gt (dict_get x d) (dict_get best d)
                            then x else best)
             rest k)
  end.

(** [{file: 0 for file in nodes_by_partition}] *)
Definition zero_counts (nodes_by_partition : dict string (list string))
  : dict string Z :=
  fold_left (fun d file => dict_set file 0%Z d) (dict_keys nodes_by_partition) [].

Definition count_edges_in_cut_and_max_partition
    (fs : filesystem) (original_graph_file : string)
    (nodes_by_partition : dict string (list string))
  : (dict string Z * option string) * list string :=
  let cut_edges_count := zero_counts nodes_by_partition in
  match fs original_graph_file with
  | inl e =>
      ((cut_edges_count, None),
       ["Error processing the original graph file: " +:+ str e])
  | inr graph_data =>
      let cut_edges_count :=
        fold_left (count_line nodes_by_partition) graph_data cut_edges_count in
      match max_key cut_edges_count with
      | inr max_partition => ((cut_edges_count, Some max_partition), [])
      | inl e =>
          ((cut_edges_count, None),
           ["Error processing the original graph file: " +:+ str e])
      end
  end.

(** *** Notions used to state the properties *)

(** What an edge adds to the counter of a partition with node list [nodes]:
    one when exactly one endpoint is in the list. *)
Definition contribution (init_node term_node : string) (nodes : list string) : Z :=
  if xorb (node_in init_node nodes) (node_in term_node nodes) then 1%Z else 0%Z.

(** The line holds both tokens and the edge they give has exactly one
    endpoint in [nodes]. *)
Definition line_crosses (nodes : list string) (line : string) : bool :=
  match re_search init_label (strip line), re_search term_label (strip line) with
  | Some init_node, Some term_node =>
      xorb (node_in init_node nodes) (node_in term_node nodes)
  | _, _ => false
  end.

(** The text [tok] is what one of the two patterns captures on the line. *)
Definition captured_on (tok line : string) : bool :=
  bool_decide (re_search init_label (strip line) = Some tok)
  || bool_decide (re_search term_label (strip line) = Some tok).

Definition captured_in (tok : string) (lines : list string) : bool :=
  existsb (captured_on tok) lines.

(** The same test as [line_crosses], with membership decided on the text
    captured from the lines of a partition file. *)
Definition line_crosses_file (partition_lines : list string) (line : string) : bool :=
  match re_search init_label (strip line), re_search term_label (strip line) with
  | Some init_node, Some term_node =>
      xorb (captured_in init_node partition_lines)
           (captured_in term_node partition_lines)
  | _, _ => false
  end.

Definition readable (fs : filesystem) (path : string) : Prop :=
  ∃ lines, fs path = inr lines.

(** The node list that the extractor stores for a readable file. *)
Definition nodes_of_lines (lines : list string) : list string :=
  elements (fold_left extract_line lines ∅).

Definition nodes_of_file (fs : filesystem) (file_path : string) : list string :=
  match fs file_path with
  | inr lines => nodes_of_lines lines
  | inl _ => []
  end.

(** The counters once the lines [lines] of the graph file have been read. *)
Definition counters_after (nodes_by_partition : dict string (list string))
    (lines : list string) : dict string Z :=
  fold_left (count_line nodes_by_partition) lines (zero_counts nodes_by_partition).

(** Reading [line] after [lines] adds [d] to the counter of partition [P]. *)
Definition line_adds (nodes_by_partition : dict string (list string))
    (lines : list string) (line : string) (P : string) (d : Z) : Prop :=
  ∃ c, dict_get P (counters_after nodes_by_partition lines) = Some c ∧
       dict_get P (counters_after nodes_by_partition (lines ++ [line])%list)
       = Some (c + d)%Z.

(** *** Reading of the specification's canonical node identifiers

    The value of a numeric token [digits] or [digits.digits] as a pair
    (mantissa, number of decimals); two tokens denote the same number when
    the cross products agree.  This follows the specification's wording
    and is not taken from the code. *)
Definition digit_value (c : ascii) : option Z :=
  let n := nat_of_ascii c in
  if Nat.leb 48 n && Nat.leb n 57 then Some (Z.of_nat (n - 48)) else None.

Fixpoint decimal_value (seen_dot : bool) (mant : Z) (decimals : nat)
    (s : string) : option (Z * nat) :=
  match s with
  | EmptyString => Some (mant, decimals)
  | String c s' =>
      match digit_value c with
      | Some d =>
          decimal_value seen_dot (10 * mant + d)%Z
            (if seen_dot then S decimals else decimals) s'
      | None =>
          if Ascii.eqb c "."%char && negb seen_dot
          then decimal_value true mant decimals s'
          else None
      end
  end.

Definition same_number (t1 t2 : string) : Prop :=
  match decimal_value false 0 0 t1, decimal_value false 0 0 t2 with
  | Some (m1, d1), Some (m2, d2) => (m1 * 10 ^ Z.of_nat d2 = m2 * 10 ^ Z.of_nat d1)%Z
  | _, _ => False
  end.

End PartitionsQuality.

(** ** generate_geojson.py *)

Module GenerateGeojson.
Import Py Dict.

(** How a call ends: with a value, with an exception, or with the random
    source of the model used up (or holding a draw that [random.sample]
    cannot produce) while the edge loop is still running. *)
Inductive outcome (A : Type) : Type :=
| Return (a : A)
| Raise (e : exn)
| NoDraw.
Arguments Return {A} a.
Arguments Raise {A} e.
Arguments NoDraw {A}.

Definition msg_too_many : string :=
  "Too many edges for the given number of nodes.".

Section Generator.

(** Python floats are kept abstract: no property below looks into them. *)
Variable float : Type.

(** The values that the calls to [random] deliver.
    - [node_coordinates i]: the two rounded [random.uniform] values drawn
      for node [i];
    - [sample_draws]: for each successive [random.sample(population, 2)],
      the two positions of the population that it picks;
    - [edge_capacity k], [edge_length k]: the rounded values drawn for the
      feature built at step [k] of the last loop. *)
Record random_source : Type := {
  node_coordinates : Z -> float * float;
  sample_draws : list (nat * nat);
  edge_capacity : nat -> float;
  edge_length : nat -> float
}.

Record feature : Type := {
  fid : Z;
  cat : Z;
  init_node : Z;
  term_node : Z;
  capacity : float;
  length_ : float;
  coordinates : (float * float) * (float * float)
}.

Record geojson : Type := {
  type : string;
  features : list feature
}.

(** [range(1, num_nodes + 1)] *)
Definition range1 (num_nodes : Z) : list Z :=
  map Z.of_nat (seq 1 (Z.to_nat num_nodes)).

(** [random.sample(population, 2)] for a draw of two positions: the items
    at two different positions of the population. *)
Definition random_sample2 (population : list Z) (draw : nat * nat)
  : option (Z * Z) :=
  let '(i, j) := draw in
  match population !! i, population !! j with
  | Some a, Some b => if Nat.eqb i j then None else Some (a, b)
  | _, _ => None
  end.

(** The loop [while len(edges) < num_edges]. *)
Fixpoint edges_loop (population : list Z) (num_edges : Z)
    (draws : list (nat * nat)) (edges : gset (Z * Z))
  : outcome (gset (Z * Z)) :=
  if (Z.of_nat (size edges) <? num_edges)%Z then
    if Nat.ltb (List.length population) 2 then Raise (ValueError msg_sample)
    else
      match draws with
      | [] => NoDraw
      | draw :: draws' =>
          match random_sample2 population draw with
          | None => NoDraw
          | Some (init_node, term_node) =>
              if bool_decide ((init_node, term_node) ∉ edges)
                 && bool_decide ((term_node, init_node) ∉ edges)
              then edges_loop population num_edges draws'
                     ({[(init_node, term_node)]} ∪ edges)
              else edges_loop population num_edges draws' edges
          end
      end
  else Return edges.

(** The loop [for fid, (init_node, term_node) in enumerate(edges, start=1)],
    from position [k] of the enumeration on. *)
Fixpoint make_features (rnd : random_source)
    (nodes : dict Z (float * float)) (k : nat) (edges : list (Z * Z))
  : outcome (list feature) :=
  match edges with
  | [] => Return []
  | (init_node, term_node) :: edges' =>
      match dict_get init_node nodes, dict_get term_node nodes with
      | Some start, Some stop =>
          let f := {| fid := Z.of_nat k + 1;
                      cat := Z.of_nat k + 1;
                      init_node := init_node;
                      term_node := term_node;
                      capacity := edge_capacity rnd k;
                      length_ := edge_length rnd k;
                      coordinates := (start, stop) |} in
          match make_features rnd nodes (S k) edges' with
          | Return fs => Return (f :: fs)
          | Raise e => Raise e
          | NoDraw => NoDraw
          end
      | _, _ => Raise KeyError
      end
  end.

Definition generate_geojson (rnd : random_source) (num_nodes num_edges : Z)
  : outcome geojson :=
  if (num_edges >? num_nodes * (num_nodes - 1) / 2)%Z
  then Raise (ValueError msg_too_many)
  else
    let nodes := map (fun i => (i, node_coordinates rnd i)) (range1 num_nodes) in
    match edges_loop (dict_keys nodes) num_edges (sample_draws rnd) ∅ with
    | Raise e => Raise e
    | NoDraw => NoDraw
    | Return edges =>
        match make_features rnd nodes 0 (elements edges) with
        | Raise e => Raise e
        | NoDraw => NoDraw
        | Return fs => Return {| type := "FeatureCollection"; features := fs |}
        end
    end.

End Generator.

Arguments node_coordinates {float} _ _.
Arguments sample_draws {float} _.
Arguments edge_capacity {float} _ _.
Arguments edge_length {float} _ _.
Arguments fid {float} _.
Arguments cat {float} _.
Arguments init_node {float} _.
Arguments term_node {float} _.
Arguments capacity {float} _.
Arguments length_ {float} _.
Arguments coordinates {float} _.
Arguments type {float} _.
Arguments features {float} _.
Arguments make_features {float} _ _ _ _.
Arguments generate_geojson {float} _ _ _.

(** *** Notions used to state the properties *)

(** No self-loop, and no pair present in both orientations. *)
Definition simple_edges (edges : gset (Z * Z)) : Prop :=
  ∀ a b, (a, b) ∈ edges → a ≠ b ∧ (b, a) ∉ edges.

(** The endpoints of a feature. *)
Definition endpoints {float : Type} (f : feature float) : Z * Z :=
  (init_node f, term_node f).

(** A random source whose draws run through all the pairs of positions
    [i < j] below [n]; its floats carry no information. *)
Definition all_pairs (n : nat) : list (nat * nat) :=
  flat_map (fun i => map (fun j => (i, j)) (seq (S i) (n - S i))) (seq 0 n).

Definition exhaustive_source (n : nat) : random_source unit :=
  {| node_coordinates := fun _ => (tt, tt);
     sample_draws := all_pairs n;
     edge_capacity := fun _ => tt;
     edge_length := fun _ => tt |}.

(** A source whose second draw repeats the first edge in the other
    orientation, and the graph that it yields for 4 nodes and 2 edges. *)
Definition small_source : random_source unit :=
  {| node_coordinates := fun _ => (tt, tt);
     sample_draws := [(0, 1); (1, 0); (2, 1)]%nat;
     edge_capacity := fun _ => tt;
     edge_length := fun _ => tt |}.

Definition small_graph : geojson unit :=
  {| type := "FeatureCollection";
     features :=
       [ {| fid := 1; cat := 1; init_node := 3; term_node := 2;
            capacity := tt; length_ := tt; coordinates := ((tt, tt), (tt, tt)) |};
         {| fid := 2; cat := 2; init_node := 1; term_node := 2;
            capacity := tt; length_ := tt; coordinates := ((tt, tt), (tt, tt)) |} ] |}.

End GenerateGeojson.

(** ** A small set of files

    Partition [A] holds nodes 1 and 2, partition [B] holds node 3; the graph
    [G] has the edges (1,2) and (2,3).  [G_split] writes the edge (2,3) on
    two lines, [G_decimal] writes its first endpoint as [2.0].  Any other
    path cannot be opened. *)

Module Scenario.
Import Py Text PartitionsQuality.

Definition record (init_node term_node : string) : string :=
  "{ " +:+ field "init_node" init_node +:+ ", "
       +:+ field "term_node" term_node +:+ " }".

Definition fs : filesystem := fun path =>
  if String.eqb path "A" then inr [record "1" "2"]
  else if String.eqb path "B" then inr [record "3" "3"]
  else if String.eqb path "G" then inr [record "1" "2"; record "2" "3"]
  else if String.eqb path "G_split"
       then inr [record "1" "2";
                 "{ " +:+ field "init_node" "2" +:+ ",";
                 field "term_node" "3" +:+ " }"]
  else if String.eqb path "G_decimal" then inr [record "1" "2"; record "2.0" "3"]
  else inl (OSError path).

Definition nodes_by_partition : dict string (list string) :=
  [("A", ["1"; "2"]); ("B", ["3"])].

End Scenario.

(** ** The statements of partitions_quality.py after its functions *)

Module Report.
Import Py Dict Text PartitionsQuality.

(** [str(n)] of an integer, as an f-string interpolates it. *)
Definition str_int (n : Z) : string := pretty n.

(** The statements of the script that follow the two constants, for a graph
    path and a list of partition paths.  The result is what has been
    printed, and the exception that ends the script when one is raised
    (nothing catches it at this level).  In the last statement the f-string
    evaluates [cut_edges[max_partition]] before anything is printed. *)
Definition report (fs : filesystem) (original_graph_file : string)
    (files : list string) : list string * option exn :=
  let '(nodes_by_partition, out_extract) :=
    extract_unique_nodes_from_multiple_files fs files in
  match count_nodes_in_partitions_and_diff nodes_by_partition with
  | inl e => (out_extract, Some e)
  | inr (node_counts, diff) =>
      let out_counts :=
        map (fun '(file, count) =>
               "Number of nodes in " +:+ file +:+ ": " +:+ str_int count)
            node_counts in
      let out_diff :=
        ["Difference between the largest and smallest partition: "
           +:+ str_int diff] in
      let '((cut_edges, max_partition), out_cut) :=
        count_edges_in_cut_and_max_partition fs original_graph_file
          nodes_by_partition in
      let out_edges :=
        map (fun '(file, count) =>
               "Number of cut edges in " +:+ file +:+ ": " +:+ str_int count)
            cut_edges in
      let printed :=
        (out_extract ++ out_counts ++ out_diff ++ out_cut ++ out_edges)%list in
      match max_partition with
      | None => (printed, Some KeyError)
      | Some p =>
          match dict_get p cut_edges with
          | None => (printed, Some KeyError)
          | Some n =>
              ((printed ++
                ["The partition with the most cut edges is: " +:+ p
                   +:+ " with " +:+ str_int n +:+ " edges."])%list,
               None)
          end
      end
  end.

Definition original_graph_file : string := "formated_network30000_480000.geojson".

Definition files : list string :=
  ["Partition0_0.geojson"; "Partition0_1.geojson"; "Partition0_2.geojson";
   "Partition0_3.geojson"; "Partition0_4.geojson"; "Partition0_5.geojson";
   "Partition0_6.geojson"; "Partition0_7.geojson"].

(** The script, on a given file system. *)
Definition script (fs : filesystem) : list string * option exn :=
  report fs original_graph_file files.

End Report.

(** ** format.py *)

Module Format.
Import Py Text.

Definition LF : string := String "010"%char "".
Definition TAB : string := String "009"%char "".

(** [s.replace(old, new)] and [s.replace(old, new, count)] for a non-empty
    [old]: the occurrences are taken from the left and do not overlap.
    [limit] is the number of replacements still allowed ([None]: no count
    was given); [skip] is the number of characters of the occurrence just
    replaced that remain to be passed over. *)
Fixpoint replace_go (old new : string) (limit : option nat) (skip : nat)
    (s : string) : string :=
  match s with
  | EmptyString => EmptyString
  | String c s' =>
      match skip with
      | S k => replace_go old new limit k s'
      | O =>
          match limit with
          | Some O => s
          | _ =>
              match after_literal old s with
              | Some _ =>
                  new +:+ replace_go old new (Nat.pred <$> limit)
                            (String.length old - 1) s'
              | None => String c (replace_go old new limit 0 s')
              end
          end
      end
  end.

Definition replace (old new s : string) : string := replace_go old new None 0 s.

Definition replace_first (old new s : string) : string :=
  replace_go old new (Some 1) 0 s.

(** [\d] on code points below 256. *)
Definition is_digit (c : ascii) : bool :=
  let n := nat_of_ascii c in Nat.leb 48 n && Nat.leb n 57.

Fixpoint take_digits (s : string) : string :=
  match s with
  | String c s' => if is_digit c then String c (take_digits s') else EmptyString
  | EmptyString => EmptyString
  end.

Fixpoint drop_digits (s : string) : string :=
  match s with
  | String c s' => if is_digit c then drop_digits s' else s
  | EmptyString => EmptyString
  end.

(** [-?\d+\.\d+] anchored at the start of [s]: the text matched and what
    follows it.  Each quantifier is greedy and is followed by a character
    that it cannot match, so the greedy choice is the only candidate. *)
Definition number_here (s : string) : option (string * string) :=
  let '(sign, s1) :=
    match s with
    | String c r => if Ascii.eqb c "-" then ("-", r) else ("", s)
    | EmptyString => ("", s)
    end in
  match take_digits s1, drop_digits s1 with
  | String d ds, String dot s2 =>
      if Ascii.eqb dot "." then
        match take_digits s2 with
        | String e es =>
            Some (sign +:+ String d ds +:+ "." +:+ String e es, drop_digits s2)
        | EmptyString => None
        end
      else None
  | _, _ => None
  end.

(** [(-?\d+\.\d+),(-?\d+\.\d+)] anchored at the start of [s]: groups 1
    and 2. *)
Definition pair_here (s : string) : option (string * string) :=
  match number_here s with
  | Some (group1, String c r) =>
      if Ascii.eqb c "," then
        match number_here r with
        | Some (group2, _) => Some (group1, group2)
        | None => None
        end
      else None
  | _ => None
  end.

(** [re.sub(pattern, r'\1, \2', s)]: the matches are taken from the left
    and do not overlap; [skip] as in [replace_go]. *)
Fixpoint sub_go (skip : nat) (s : string) : string :=
  match s with
  | EmptyString => EmptyString
  | String c s' =>
      match skip with
      | S k => sub_go k s'
      | O =>
          match pair_here s with
          | Some (group1, group2) =>
              group1 +:+ ", " +:+ group2
                +:+ sub_go (String.length group1 + String.length group2) s'
          | None => String c (sub_go 0 s')
          end
      end
  end.

Definition sub_pairs (s : string) : string := sub_go 0 s.

Definition key (name : string) : string := "," +:+ quoted name +:+ ":".
Definition spaced_key (name : string) : string := ", " +:+ quoted name +:+ ":".

(** The statements of [format] between the read and the write. *)
Definition format_content (content : string) : string :=
  let content := replace "  " "" (replace TAB "" (replace LF "" content)) in
  let content := replace_first "{" ("{" +:+ LF) content in
  let content :=
    replace_first
      (quoted "type" +:+ ": " +:+ quoted "FeatureCollection" +:+ ",")
      (" " +:+ quoted "type" +:+ ": " +:+ quoted "FeatureCollection" +:+ "," +:+ LF)
      content in
  let content :=
    replace_first (quoted "features" +:+ ": [")
      (" " +:+ quoted "features" +:+ ": [" +:+ LF) content in
  let content :=
    replace
      ("{" +:+ quoted "type" +:+ ": " +:+ quoted "Feature" +:+ ","
           +:+ quoted "properties" +:+ ": {" +:+ quoted "fid" +:+ ":")
      ("{ " +:+ quoted "type" +:+ ": " +:+ quoted "Feature" +:+ ", "
            +:+ quoted "properties" +:+ ": { " +:+ quoted "fid" +:+ ":")
      content in
  let content := replace (key "cat") (spaced_key "cat") content in
  let content := replace (key "init_node") (spaced_key "init_node") content in
  let content := replace (key "term_node") (spaced_key "term_node") content in
  let content := replace (key "capacity") (spaced_key "capacity") content in
  let content := replace (key "length") (spaced_key "length") content in
  let content :=
    replace
      ("}," +:+ quoted "geometry" +:+ ": {" +:+ quoted "type" +:+ ": "
            +:+ quoted "LineString" +:+ "," +:+ quoted "coordinates" +:+ ": [[")
      ("}, " +:+ quoted "geometry" +:+ ": { " +:+ quoted "type" +:+ ": "
             +:+ quoted "LineString" +:+ ", " +:+ quoted "coordinates" +:+ ": [ [ ")
      content in
  let content := replace "],[" " ], [ " content in
  let content := replace "]]}}," (" ] ] } }," +:+ LF) content in
  let content := replace "]]}}]}" (" ] ] } }" +:+ LF +:+ "]" +:+ LF +:+ "}") content in
  sub_pairs content.





End Format.

(** ** Notions used to state further properties *)

Module Measures.
Import Py Dict Text PartitionsQuality.

(** Every character of the text satisfies [p]. *)
Fixpoint string_forall (p : ascii → bool) (s : string) : bool :=
  match s with
  | EmptyString => true
  | String c s' => p c && string_forall p s'
  end.

Definition is_readable (fs : filesystem) (path : string) : bool :=
  match fs path with
  | inr _ => true
  | inl _ => false
  end.

(** The paths listed before the first one that cannot be read. *)
Fixpoint readable_prefix (fs : filesystem) (files : list string) : list string :=
  match files with
  | [] => []
  | f :: files' => if is_readable fs f then f :: readable_prefix fs files' else []
  end.

(** The list without the repetitions of an earlier item. *)
Definition first_occurrences (l : list string) : list string :=
  fold_left (fun seen x => if bool_decide (x ∈ seen) then seen else (seen ++ [x])%list)
            l [].

(** The edge that the cut analyzer reads on a line, when it reads one. *)
Definition edge_of_line (line : string) : option (string * string) :=
  match re_search init_label (strip line), re_search term_label (strip line) with
  | Some init_node, Some term_node => Some (init_node, term_node)
  | _, _ => None
  end.

Definition is_edge_line (line : string) : bool :=
  match edge_of_line line with
  | Some _ => true
  | None => false
  end.

(** The number of partitions whose node list holds [tok]. *)
Definition holders (nbp : dict string (list string)) (tok : string) : nat :=
  List.length (List.filter (fun a => node_in tok a.2) nbp).

(** Some partition holds both [u] and [v]. *)
Definition together (nbp : dict string (list string)) (u v : string) : bool :=
  existsb (fun a => node_in u a.2 && node_in v a.2) nbp.

(** The line gives an edge whose endpoints no partition holds together. *)
Definition crossing_line (nbp : dict string (list string)) (line : string) : bool :=
  match edge_of_line line with
  | Some (u, v) => negb (together nbp u v)
  | None => false
  end.

Definition sum_values (d : dict string Z) : Z :=
  fold_right Z.add 0%Z (dict_values d).

End Measures.

(** ** More files

    [twice] lists the records of [once] again, in another order; [G_raw]
    has one field per line; [G12] and [G21] hold the lines of [G1] and [G2]
    in two orders. *)

Module Samples.
Import Py Text PartitionsQuality.

Definition fs : filesystem := fun path =>
  if String.eqb path "once"
  then inr [Scenario.record "1" "2"; Scenario.record "2" "3"]
  else if String.eqb path "twice"
  then inr [Scenario.record "2" "3"; Scenario.record "1" "2";
            Scenario.record "2" "3"]
  else if String.eqb path "G_raw"
  then inr ["{"; field "fid" "1" +:+ ","; field "init_node" "2" +:+ ",";
            field "term_node" "3" +:+ ","; "}"]
  else if String.eqb path "G1" then inr [Scenario.record "1" "2"]
  else if String.eqb path "G2" then inr [Scenario.record "2" "3"; Scenario.record "3" "1"]
  else if String.eqb path "G12"
  then inr [Scenario.record "1" "2"; Scenario.record "2" "3"; Scenario.record "3" "1"]
  else if String.eqb path "G21"
  then inr [Scenario.record "3" "1"; Scenario.record "1" "2"; Scenario.record "2" "3"]
  else Scenario.fs path.



End Samples.

(** * Properties *)

Import Py Dict Text.

(** ** Dictionaries *)

Section DictFacts.
Context {K V : Type} `{EqDecision K}.
Implicit Types (k : K) (v : V) (d : list (K * V)).

Lemma dict_get_set_eq k v d : dict_get k (dict_set k v d) = Some v.
Proof.
  induction d as [|[k' v'] d IH]; simpl.
  - by rewrite decide_True.
  - destruct (decide (k = k')) as [->|Hne]; simpl.
    + by rewrite decide_True.
    + by rewrite decide_False.
Qed.

Lemma dict_get_set_ne k k' v d :
  k ≠ k' → dict_get k' (dict_set k v d) = dict_get k' d.
Proof.
  intros Hne. induction d as [|[k0 v0] d IH]; simpl.
  - by rewrite decide_False.
  - destruct (decide (k = k0)) as [->|Hk]; simpl.
    + by rewrite !decide_False.
    + destruct (decide (k' = k0)); done.
Qed.

Lemma dict_get_None k d : dict_get k d = None ↔ k ∉ dict_keys d.
Proof.
  unfold dict_keys. induction d as [|[k' v'] d IH]; simpl.
  - split; [intros _; apply not_elem_of_nil | done].
  - rewrite not_elem_of_cons. destruct (decide (k = k')) as [->|Hne].
    + split; [done | intros [? _]; done].
    + rewrite IH. tauto.
Qed.

Lemma dict_get_is_Some k d : is_Some (dict_get k d) ↔ k ∈ dict_keys d.
Proof.
  destruct (dict_get k d) eqn:E.
  - split; [intros _ | by eauto].
    destruct (decide (k ∈ dict_keys d)) as [|Hn]; [done|].
    apply dict_get_None in Hn. congruence.
  - apply dict_get_None in E. split; [intros [? ?]; done | done].
Qed.

Lemma dict_get_elem_of k v d : dict_get k d = Some v → (k, v) ∈ d.
Proof.
  induction d as [|[k' v'] d IH]; simpl; [done|].
  destruct (decide (k = k')) as [->|Hne].
  - intros [= ->]. apply list_elem_of_here.
  - intros Hg. apply list_elem_of_further. auto.
Qed.

Lemma dict_get_NoDup k v d :
  NoDup (dict_keys d) → (k, v) ∈ d → dict_get k d = Some v.
Proof.
  unfold dict_keys. induction d as [|[k' v'] d IH]; simpl.
  - intros _ Hin. by apply elem_of_nil in Hin.
  - rewrite NoDup_cons. intros [Hfresh Hnd] Hin.
    apply elem_of_cons in Hin as [[= <- <-]|Hin].
    + by rewrite decide_True.
    + destruct (decide (k = k')) as [->|Hne]; [|by apply IH].
      exfalso. apply Hfresh. apply list_elem_of_fmap. by exists (k', v).
Qed.

Lemma dict_keys_set_present k v d :
  k ∈ dict_keys d → dict_keys (dict_set k v d) = dict_keys d.
Proof.
  unfold dict_keys. induction d as [|[k' v'] d IH]; simpl.
  - intros Hin. by apply elem_of_nil in Hin.
  - intros Hin. destruct (decide (k = k')) as [->|Hne]; simpl; [done|].
    apply elem_of_cons in Hin as [?|Hin]; [done|]. by rewrite IH.
Qed.

Lemma dict_set_absent k v d :
  k ∉ dict_keys d → dict_set k v d = (d ++ [(k, v)])%list.
Proof.
  unfold dict_keys. induction d as [|[k' v'] d IH]; simpl; [done|].
  rewrite not_elem_of_cons. intros [Hne Hnin].
  rewrite decide_False by done. by rewrite IH.
Qed.

Lemma dict_set_not_nil k v d : dict_set k v d ≠ [].
Proof. destruct d as [|[k' v'] d]; simpl; [done|]. by destruct (decide (k = k')). Qed.

(** A loop of assignments [d[key a] = val a] over a list of items. *)
Section SetLoop.
Context {A : Type} (key : A → K) (val : A → V).
Local Abbreviation set_loop := (fold_left (fun d a => dict_set (key a) (val a) d)).

Lemma set_loop_get_other (l : list A) d k :
  k ∉ map key l → dict_get k (set_loop l d) = dict_get k d.
Proof.
  revert d. induction l as [|a l IH]; intros d; simpl; [done|].
  rewrite not_elem_of_cons. intros [Hne Hnin].
  rewrite IH by done. by apply dict_get_set_ne.
Qed.

Lemma set_loop_get (l : list A) d a :
  NoDup (map key l) → a ∈ l → dict_get (key a) (set_loop l d) = Some (val a).
Proof.
  revert d. induction l as [|a0 l IH]; intros d; simpl.
  - intros _ Hin. by apply elem_of_nil in Hin.
  - rewrite NoDup_cons. intros [Hfresh Hnd] Hin.
    apply elem_of_cons in Hin as [->|Hin]; [|by apply IH].
    rewrite set_loop_get_other by done. apply dict_get_set_eq.
Qed.

Lemma set_loop_get_fun (h : K → V) (l : list A) d k :
  (∀ a, val a = h (key a)) → k ∈ map key l →
  dict_get k (set_loop l d) = Some (h k).
Proof.
  intros Hval. revert d. induction l as [|a0 l IH]; intros d; simpl.
  - intros Hin. by apply elem_of_nil in Hin.
  - intros Hin. destruct (decide (k ∈ map key l)) as [Hl|Hl]; [by apply IH|].
    apply elem_of_cons in Hin as [->|Hin]; [|done].
    rewrite set_loop_get_other by done. by rewrite dict_get_set_eq, Hval.
Qed.

Lemma set_loop_keys (l : list A) d :
  NoDup (map key l) → (∀ k, k ∈ map key l → k ∉ dict_keys d) →
  dict_keys (set_loop l d) = (dict_keys d ++ map key l)%list.
Proof.
  revert d. induction l as [|a l IH]; intros d; simpl.
  - intros _ _. by rewrite app_nil_r.
  - rewrite NoDup_cons. intros [Hfresh Hnd] Hdisj.
    assert (key a ∉ dict_keys d) as Hf by apply Hdisj, list_elem_of_here.
    rewrite IH; [|done|].
    + rewrite dict_set_absent by done. unfold dict_keys.
      rewrite map_app. simpl. by rewrite <- app_assoc.
    + intros k Hk. rewrite dict_set_absent by done. unfold dict_keys.
      rewrite map_app, not_elem_of_app. split.
      * apply Hdisj. by apply list_elem_of_further.
      * simpl. rewrite list_elem_of_singleton. by intros ->.
Qed.

Lemma set_loop_elem_keys (l : list A) d k :
  k ∈ dict_keys (set_loop l d) ↔ k ∈ dict_keys d ∨ k ∈ map key l.
Proof.
  revert d. induction l as [|a l IH]; intros d; simpl.
  - rewrite elem_of_nil. tauto.
  - rewrite IH, elem_of_cons, <- !dict_get_is_Some.
    destruct (decide (key a = k)) as [<-|Hne].
    + rewrite dict_get_set_eq. split; [auto | intros _; left; eauto].
    + rewrite dict_get_set_ne by done. split; [tauto|].
      intros [?|[?|?]]; [tauto | congruence | tauto].
Qed.

Lemma set_loop_not_nil (l : list A) d : l ≠ [] → set_loop l d ≠ [].
Proof.
  intros Hl Hnil.
  assert (∀ k, k ∉ dict_keys (set_loop l d)) as Hno.
  { intros k. rewrite Hnil. apply not_elem_of_nil. }
  destruct l as [|a l]; [done|].
  apply (Hno (key a)), set_loop_elem_keys. right. apply list_elem_of_here.
Qed.

Lemma set_loop_fresh (l : list A) d :
  NoDup (map key l) → (∀ k, k ∈ map key l → k ∉ dict_keys d) →
  set_loop l d = (d ++ map (fun a => (key a, val a)) l)%list.
Proof.
  revert d. induction l as [|a l IH]; intros d; simpl.
  - intros _ _. by rewrite app_nil_r.
  - rewrite NoDup_cons. intros [Hfresh Hnd] Hdisj.
    assert (key a ∉ dict_keys d) as Hf by apply Hdisj, list_elem_of_here.
    rewrite IH; [|done|].
    + rewrite dict_set_absent by done. by rewrite <- app_assoc.
    + intros k Hk. rewrite dict_set_absent by done. unfold dict_keys.
      rewrite map_app, not_elem_of_app. split.
      * apply Hdisj. by apply list_elem_of_further.
      * simpl. rewrite list_elem_of_singleton. by intros ->.
Qed.

End SetLoop.

End DictFacts.

(** ** [max] and [min] *)

Lemma max_loop_spec (rest : list Z) (v : Z) :
  let m := fold_left (fun m x => if (x >? m)%Z then x else m) rest v in
  m ∈ v :: rest ∧ ∀ x, x ∈ v :: rest → (x ≤ m)%Z.
Proof.
  revert v. induction rest as [|y rest IH]; intros v; simpl.
  - split; [apply list_elem_of_here|]. intros x Hx.
    apply list_elem_of_singleton in Hx. lia.
  - specialize (IH (if (y >? v)%Z then y else v)). simpl in IH.
    destruct IH as [Hin Hub]. split.
    + apply elem_of_cons in Hin as [->|Hin].
      * destruct (y >? v)%Z; [apply list_elem_of_further|]; apply list_elem_of_here.
      * by do 2 apply list_elem_of_further.
    + intros x Hx. apply elem_of_cons in Hx as [->|Hx].
      * etrans; [|apply Hub, list_elem_of_here].
        destruct (Z.gtb_spec y v); lia.
      * apply elem_of_cons in Hx as [->|Hx].
        -- etrans; [|apply Hub, list_elem_of_here].
           destruct (Z.gtb_spec y v); lia.
        -- by apply Hub, list_elem_of_further.
Qed.

Lemma min_loop_spec (rest : list Z) (v : Z) :
  let m := fold_left (fun m x => if (x <? m)%Z then x else m) rest v in
  m ∈ v :: rest ∧ ∀ x, x ∈ v :: rest → (m ≤ x)%Z.
Proof.
  revert v. induction rest as [|y rest IH]; intros v; simpl.
  - split; [apply list_elem_of_here|]. intros x Hx.
    apply list_elem_of_singleton in Hx. lia.
  - specialize (IH (if (y <? v)%Z then y else v)). simpl in IH.
    destruct IH as [Hin Hlb]. split.
    + apply elem_of_cons in Hin as [->|Hin].
      * destruct (y <? v)%Z; [apply list_elem_of_further|]; apply list_elem_of_here.
      * by do 2 apply list_elem_of_further.
    + intros x Hx. apply elem_of_cons in Hx as [->|Hx].
      * etrans; [apply Hlb, list_elem_of_here|].
        destruct (Z.ltb_spec y v); lia.
      * apply elem_of_cons in Hx as [->|Hx].
        -- etrans; [apply Hlb, list_elem_of_here|].
           destruct (Z.ltb_spec y v); lia.
        -- by apply Hlb, list_elem_of_further.
Qed.

(** ** The cut analyzer: one edge *)

Import PartitionsQuality.

Section CutFacts.
Implicit Types (nbp : list (string * list string)) (cut : list (string * Z)).

Lemma dict_get_incr_eq file cut n :
  dict_get file cut = Some n → dict_get file (dict_incr file cut) = Some (n + 1)%Z.
Proof. intros Hg. unfold dict_incr. rewrite Hg. apply dict_get_set_eq. Qed.

Lemma dict_get_incr_ne file file' cut :
  file ≠ file' → dict_get file' (dict_incr file cut) = dict_get file' cut.
Proof.
  intros Hne. unfold dict_incr.
  destruct (dict_get file cut); [by apply dict_get_set_ne | done].
Qed.

Lemma dict_keys_incr file cut : dict_keys (dict_incr file cut) = dict_keys cut.
Proof.
  unfold dict_incr. destruct (dict_get file cut) eqn:E; [|done].
  apply dict_keys_set_present, dict_get_is_Some. by rewrite E.
Qed.

Lemma count_edge_cons u v file nodes nbp cut :
  count_edge u v ((file, nodes) :: nbp) cut =
  count_edge u v nbp
    (if xorb (node_in u nodes) (node_in v nodes) then dict_incr file cut else cut).
Proof.
  unfold count_edge. simpl.
  by destruct (node_in u nodes), (node_in v nodes).
Qed.

Lemma count_edge_keys u v nbp cut :
  dict_keys (count_edge u v nbp cut) = dict_keys cut.
Proof.
  revert cut. induction nbp as [|[file nodes] nbp IH]; intros cut; [done|].
  rewrite count_edge_cons, IH.
  destruct (xorb _ _); [apply dict_keys_incr | done].
Qed.

Lemma count_edge_other u v nbp cut P :
  P ∉ dict_keys nbp → dict_get P (count_edge u v nbp cut) = dict_get P cut.
Proof.
  revert cut. induction nbp as [|[file nodes] nbp IH]; intros cut; [done|].
  rewrite count_edge_cons. unfold dict_keys; simpl.
  rewrite not_elem_of_cons. intros [Hne Hnin]. rewrite IH by done.
  destruct (xorb _ _); [by apply dict_get_incr_ne | done].
Qed.

Lemma count_edge_get u v nbp cut P nodes c :
  NoDup (dict_keys nbp) → (P, nodes) ∈ nbp → dict_get P cut = Some c →
  dict_get P (count_edge u v nbp cut) = Some (c + contribution u v nodes)%Z.
Proof.
  revert cut. unfold dict_keys.
  induction nbp as [|[file ns] nbp IH]; intros cut Hnd Hin Hc.
  - by apply elem_of_nil in Hin.
  - simpl in Hnd. apply NoDup_cons in Hnd as [Hfresh Hnd].
    rewrite count_edge_cons.
    apply elem_of_cons in Hin as [[= <- <-]|Hin].
    + rewrite count_edge_other by done. unfold contribution.
      destruct (xorb _ _); [by apply dict_get_incr_eq | by rewrite Z.add_0_r].
    + assert (file ≠ P) as Hne.
      { intros ->. apply Hfresh, list_elem_of_fmap. by exists (P, nodes). }
      apply IH; [done..|].
      destruct (xorb _ _); [by rewrite dict_get_incr_ne | done].
Qed.

Lemma count_edge_sym u v nbp cut : count_edge u v nbp cut = count_edge v u nbp cut.
Proof.
  revert cut. induction nbp as [|[file nodes] nbp IH]; intros cut; [done|].
  by rewrite !count_edge_cons, xorb_comm, IH.
Qed.

Lemma contribution_both u v nodes : u ∈ nodes → v ∈ nodes → contribution u v nodes = 0%Z.
Proof.
  intros Hu Hv. unfold contribution, node_in.
  by rewrite !bool_decide_eq_true_2.
Qed.

Lemma contribution_neither u v nodes : u ∉ nodes → v ∉ nodes → contribution u v nodes = 0%Z.
Proof.
  intros Hu Hv. unfold contribution, node_in.
  by rewrite !bool_decide_eq_false_2.
Qed.

Lemma contribution_left u v nodes : u ∈ nodes → v ∉ nodes → contribution u v nodes = 1%Z.
Proof.
  intros Hu Hv. unfold contribution, node_in.
  by rewrite bool_decide_eq_true_2, bool_decide_eq_false_2.
Qed.

Lemma contribution_right u v nodes : u ∉ nodes → v ∈ nodes → contribution u v nodes = 1%Z.
Proof.
  intros Hu Hv. unfold contribution, node_in.
  by rewrite bool_decide_eq_false_2, bool_decide_eq_true_2.
Qed.

End CutFacts.

(** ** The cut analyzer: counters over the whole file *)

Section CounterFacts.
Implicit Types (nbp : list (string * list string)) (cut : list (string * Z)).

Lemma zero_counts_keys nbp :
  NoDup (dict_keys nbp) → dict_keys (zero_counts nbp) = dict_keys nbp.
Proof.
  intros Hnd. unfold zero_counts.
  rewrite (set_loop_keys id (fun _ => 0%Z)); rewrite ?map_id; [done..|].
  intros f _. apply not_elem_of_nil.
Qed.

Lemma zero_counts_get nbp P :
  P ∈ dict_keys nbp → dict_get P (zero_counts nbp) = Some 0%Z.
Proof.
  intros Hin. unfold zero_counts.
  apply (set_loop_get_fun id (fun _ => 0%Z) (fun _ => 0%Z)); [done|].
  by rewrite map_id.
Qed.

Lemma zero_counts_values nbp P n : (P, n) ∈ zero_counts nbp → n = 0%Z.
Proof.
  unfold zero_counts.
  assert (∀ files cut, (∀ k v, (k, v) ∈ cut → v = 0%Z) →
            ∀ k v, (k, v) ∈ fold_left (fun d file => dict_set file 0%Z d) files cut →
                   v = 0%Z) as Hloop.
  { induction files as [|f files IH]; intros cut Hcut; simpl; [done|].
    apply IH. clear IH. induction cut as [|[k0 v0] cut IHc]; simpl.
    - intros k v Hin. apply list_elem_of_singleton in Hin. congruence.
    - intros k v. destruct (decide (f = k0)) as [->|Hne].
      + rewrite elem_of_cons. intros [[= _ ->]|Hin]; [done|].
        eapply Hcut. by apply list_elem_of_further.
      + rewrite elem_of_cons. intros [[= -> ->]|Hin].
        * eapply Hcut. apply list_elem_of_here.
        * eapply IHc; [|done]. intros k' v' Hin'. eapply Hcut.
          by apply list_elem_of_further. }
  eapply Hloop. intros k v Hin. by apply elem_of_nil in Hin.
Qed.

Lemma count_line_keys nbp cut line :
  dict_keys (count_line nbp cut line) = dict_keys cut.
Proof.
  unfold count_line.
  destruct (re_search init_label (strip line)), (re_search term_label (strip line));
    try done.
  apply count_edge_keys.
Qed.

Lemma count_lines_keys nbp lines cut :
  dict_keys (fold_left (count_line nbp) lines cut) = dict_keys cut.
Proof.
  revert cut. induction lines as [|line lines IH]; intros cut; simpl; [done|].
  by rewrite IH, count_line_keys.
Qed.

Lemma count_line_get nbp cut line P nodes c :
  NoDup (dict_keys nbp) → (P, nodes) ∈ nbp → dict_get P cut = Some c →
  dict_get P (count_line nbp cut line) =
  Some (c + (if line_crosses nodes line then 1 else 0))%Z.
Proof.
  intros Hnd Hin Hc. unfold count_line, line_crosses.
  destruct (re_search init_label (strip line)) as [u|],
    (re_search term_label (strip line)) as [v|];
    rewrite ?Z.add_0_r; try done.
  by rewrite (count_edge_get u v nbp cut P nodes c).
Qed.

Lemma count_lines_get nbp lines cut P nodes c :
  NoDup (dict_keys nbp) → (P, nodes) ∈ nbp → dict_get P cut = Some c →
  dict_get P (fold_left (count_line nbp) lines cut) =
  Some (c + Z.of_nat (List.length (List.filter (line_crosses nodes) lines)))%Z.
Proof.
  intros Hnd Hin. revert cut c.
  induction lines as [|line lines IH]; intros cut c Hc; simpl.
  - by rewrite Z.add_0_r.
  - rewrite (IH _ (c + (if line_crosses nodes line then 1 else 0))%Z)
      by by apply count_line_get.
    f_equal. destruct (line_crosses nodes line); simpl List.length; lia.
Qed.

(** [max] over the keys: the first key, in order, whose value is the
    greatest. *)
Lemma best_key_loop (g : string → option Z) (rest : list string) (k : string) :
  (∀ x, x ∈ k :: rest → is_Some (g x)) →
  let b := fold_left (fun best x => if opt_gt (g x) (g best) then x else best) rest k in
  ∃ before after cb,
    k :: rest = (before ++ b :: after)%list ∧ g b = Some cb ∧
    (∀ x cx, x ∈ k :: rest → g x = Some cx → (cx ≤ cb)%Z) ∧
    (∀ x cx, x ∈ before → g x = Some cx → (cx < cb)%Z).
Proof.
  induction rest as [|x rest IH] using rev_ind; intros Hsome; simpl.
  - destruct (Hsome k) as [ck Hck]; [apply list_elem_of_here|].
    exists [], [], ck. split_and!; [done..| |].
    + intros x cx Hx Hg. apply list_elem_of_singleton in Hx as ->.
      assert (cx = ck) by congruence. lia.
    + intros x cx Hx. by apply elem_of_nil in Hx.
  - rewrite fold_left_app. simpl.
    destruct IH as (before & after & cb & Hsplit & Hb & Hmax & Hlt).
    { intros y Hy. apply Hsome. rewrite app_comm_cons, elem_of_app. by left. }
    destruct (Hsome x) as [cx Hcx].
    { rewrite app_comm_cons, elem_of_app. right. apply list_elem_of_here. }
    set (b := fold_left _ rest k) in *.
    rewrite Hcx, Hb. simpl. destruct (Z.gtb_spec cx cb) as [Hgt|Hle].
    + exists (k :: rest), [], cx. split_and!; [done..| |].
      * intros y cy Hy Hg. rewrite app_comm_cons, elem_of_app in Hy.
        destruct Hy as [Hy|Hy].
        -- specialize (Hmax y cy Hy Hg). lia.
        -- apply list_elem_of_singleton in Hy as ->.
           assert (cy = cx) by congruence. lia.
      * intros y cy Hy Hg. specialize (Hmax y cy Hy Hg). lia.
    + exists before, (after ++ [x])%list, cb. split_and!; [|done| |done].
      * rewrite app_comm_cons, Hsplit. by rewrite <- app_assoc.
      * intros y cy Hy Hg. rewrite app_comm_cons, elem_of_app in Hy.
        destruct Hy as [Hy|Hy]; [by eapply Hmax|].
        apply list_elem_of_singleton in Hy as ->.
        assert (cy = cx) by congruence. lia.
Qed.

Lemma max_key_first cut :
  cut ≠ [] →
  ∃ p before after c,
    max_key cut = inr p ∧ dict_keys cut = (before ++ p :: after)%list ∧
    dict_get p cut = Some c ∧
    (∀ k n, dict_get k cut = Some n → (n ≤ c)%Z) ∧
    (∀ k n, k ∈ before → dict_get k cut = Some n → (n < c)%Z).
Proof.
  intros Hne. unfold max_key.
  destruct (dict_keys cut) as [|k rest] eqn:Hkeys.
  { destruct cut; [done | discriminate]. }
  destruct (best_key_loop (fun x => dict_get x cut) rest k)
    as (before & after & cb & Hsplit & Hb & Hmax & Hlt).
  { intros x Hx. apply dict_get_is_Some. by rewrite Hkeys. }
  eexists _, before, after, cb. split_and!; [done..| |done].
  intros x n Hg. eapply Hmax; [|done].
  rewrite <- Hkeys. apply dict_get_is_Some. by rewrite Hg.
Qed.

Lemma max_key_nil : max_key [] = inl (ValueError msg_empty_max).
Proof. reflexivity. Qed.

End CounterFacts.

(** ** The cut analyzer: the function *)

Section CutAnalyzer.
Implicit Types (nbp : list (string * list string)) (fs : filesystem).

Lemma counters_after_keys nbp lines :
  NoDup (dict_keys nbp) → dict_keys (counters_after nbp lines) = dict_keys nbp.
Proof.
  intros Hnd. unfold counters_after.
  by rewrite count_lines_keys, zero_counts_keys.
Qed.

Lemma counters_after_get nbp lines P nodes :
  NoDup (dict_keys nbp) → (P, nodes) ∈ nbp →
  dict_get P (counters_after nbp lines) =
  Some (Z.of_nat (List.length (List.filter (line_crosses nodes) lines))).
Proof.
  intros Hnd Hin. unfold counters_after.
  rewrite (count_lines_get nbp lines _ P nodes 0%Z); [done..|].
  apply zero_counts_get, list_elem_of_fmap. by exists (P, nodes).
Qed.

Lemma counters_after_snoc nbp lines line :
  counters_after nbp (lines ++ [line]) = count_line nbp (counters_after nbp lines) line.
Proof. unfold counters_after. by rewrite fold_left_app. Qed.

Lemma count_edges_readable fs g nbp lines :
  fs g = inr lines →
  (count_edges_in_cut_and_max_partition fs g nbp).1.1 = counters_after nbp lines.
Proof.
  intros Hg. unfold count_edges_in_cut_and_max_partition. rewrite Hg.
  fold (counters_after nbp lines). by destruct (max_key _).
Qed.

Lemma line_adds_contribution nbp lines line u v P nodes :
  NoDup (dict_keys nbp) →
  re_search init_label (strip line) = Some u →
  re_search term_label (strip line) = Some v →
  (P, nodes) ∈ nbp →
  line_adds nbp lines line P (contribution u v nodes).
Proof.
  intros Hnd Hu Hv Hin.
  exists (Z.of_nat (List.length (List.filter (line_crosses nodes) lines))).
  split; [by apply counters_after_get|].
  rewrite counters_after_snoc. unfold count_line. rewrite Hu, Hv.
  apply count_edge_get; [done..|]. by apply counters_after_get.
Qed.

End CutAnalyzer.

(** ** The node extractor *)

Section Extractor.
Implicit Types (fs : filesystem) (files : list string)
  (all_nodes : list (string * list string)).

Lemma extract_loop_readable fs files all_nodes :
  (∀ f, f ∈ files → readable fs f) →
  extract_loop fs files all_nodes =
  (fold_left (fun d f => dict_set f (nodes_of_file fs f) d) files all_nodes, []).
Proof.
  revert all_nodes. induction files as [|f files IH]; intros all_nodes Hr; [done|].
  destruct (Hr f) as [lines Hf]; [apply list_elem_of_here|].
  simpl. unfold nodes_of_file at 2. rewrite Hf. apply IH.
  intros f' Hf'. by apply Hr, list_elem_of_further.
Qed.

Lemma extract_loop_stops fs pre bad post e all_nodes :
  (∀ f, f ∈ pre → readable fs f) → fs bad = inl e →
  extract_loop fs (pre ++ bad :: post) all_nodes =
  ((extract_loop fs pre all_nodes).1, ["Error processing files: " +:+ str e]).
Proof.
  revert all_nodes. induction pre as [|f pre IH]; intros all_nodes Hr Hbad; simpl.
  - by rewrite Hbad.
  - destruct (Hr f) as [lines Hf]; [apply list_elem_of_here|].
    rewrite Hf. apply IH; [|done].
    intros f' Hf'. by apply Hr, list_elem_of_further.
Qed.

Lemma extract_all_readable fs files :
  NoDup files → (∀ f, f ∈ files → readable fs f) →
  extract_unique_nodes_from_multiple_files fs files =
  (map (fun f => (f, nodes_of_file fs f)) files, []).
Proof.
  intros Hnd Hr. unfold extract_unique_nodes_from_multiple_files.
  rewrite extract_loop_readable by done. f_equal.
  rewrite (set_loop_fresh id (nodes_of_file fs)); rewrite ?map_id; [done..|].
  intros f _. apply not_elem_of_nil.
Qed.

Lemma extract_keys_in_supply_order fs files :
  NoDup files → (∀ f, f ∈ files → readable fs f) →
  dict_keys (extract_unique_nodes_from_multiple_files fs files).1 = files.
Proof.
  intros Hnd Hr. rewrite extract_all_readable by done. simpl.
  unfold dict_keys. rewrite map_map. simpl. apply map_id.
Qed.

(** The stored node list holds exactly the captured texts. *)
Lemma extract_line_elem tok S line :
  tok ∈ extract_line S line ↔ tok ∈ S ∨ captured_on tok line = true.
Proof.
  unfold extract_line, captured_on.
  rewrite orb_true_iff, !bool_decide_eq_true.
  destruct (re_search init_label (strip line)) as [a|],
    (re_search term_label (strip line)) as [b|];
    rewrite ?elem_of_union, ?elem_of_singleton; intuition congruence.
Qed.

Lemma nodes_of_lines_elem tok lines :
  tok ∈ nodes_of_lines lines ↔ captured_in tok lines = true.
Proof.
  unfold nodes_of_lines, captured_in. rewrite elem_of_elements.
  assert (∀ S : gset string,
            tok ∈ fold_left extract_line lines S ↔
            tok ∈ S ∨ existsb (captured_on tok) lines = true) as Hgen.
  { induction lines as [|line lines IH]; intros S; simpl.
    - split; [auto | intros [?|?]; done].
    - rewrite IH, extract_line_elem, orb_true_iff. tauto. }
  rewrite Hgen. split; [|auto].
  intros [Hin|Hin]; [by apply not_elem_of_empty in Hin | done].
Qed.

Lemma nodes_of_lines_NoDup lines : NoDup (nodes_of_lines lines).
Proof. unfold nodes_of_lines. apply NoDup_elements. Qed.

End Extractor.

(** ** The two patterns *)

Section TextFacts.
Implicit Types (s lit label tok rest ws : string) (c : ascii).

Lemma append_cons c s t : String c s +:+ t = String c (s +:+ t).
Proof. reflexivity. Qed.

Lemma append_empty_l s : "" +:+ s = s.
Proof. reflexivity. Qed.

Lemma is_num_not_space c : is_num c = true → is_space c = false.
Proof.
  destruct c as [b0 b1 b2 b3 b4 b5 b6 b7].
  destruct b0, b1, b2, b3, b4, b5, b6, b7; vm_compute; congruence.
Qed.

Lemma after_literal_append lit s : after_literal lit (lit +:+ s) = Some s.
Proof.
  induction lit as [|a lit IH]; [by destruct s|].
  rewrite append_cons. simpl. by rewrite Ascii.eqb_refl.
Qed.

Lemma after_literal_Some lit s rest :
  after_literal lit s = Some rest → s = lit +:+ rest.
Proof.
  revert s. induction lit as [|a lit IH]; intros s; simpl.
  - by intros [= ->].
  - destruct s as [|b s]; [done|].
    destruct (Ascii.eqb a b) eqn:E; [|done].
    apply Ascii.eqb_eq in E as ->. intros Hr.
    rewrite append_cons. f_equal. by apply IH.
Qed.

Lemma lstrip_split s : ∃ ws, s = ws +:+ lstrip s ∧ lstrip ws = "".
Proof.
  induction s as [|c s (ws & Hs & Hws)]; simpl.
  - by exists "".
  - destruct (is_space c) eqn:E.
    + exists (String c ws). rewrite append_cons, <- Hs. simpl. by rewrite E.
    + by exists "".
Qed.

Lemma lstrip_spaces_then_num ws c rest :
  lstrip ws = "" → is_num c = true → lstrip (ws +:+ String c rest) = String c rest.
Proof.
  intros Hws Hc. induction ws as [|a ws IH].
  - rewrite append_empty_l. simpl. by rewrite is_num_not_space.
  - rewrite append_cons. simpl in *. destruct (is_space a); [by apply IH | done].
Qed.

Lemma take_num_split s : ∃ rest, s = take_num s +:+ rest.
Proof.
  induction s as [|c s [rest Hs]]; simpl.
  - by exists "".
  - destruct (is_num c).
    + exists rest. rewrite append_cons. by f_equal.
    + by eexists.
Qed.

Lemma match_here_Some label s tok :
  match_here label s = Some tok →
  ∃ ws c tok' rest,
    s = label +:+ ws +:+ tok +:+ rest ∧ lstrip ws = "" ∧
    tok = String c tok' ∧ is_num c = true ∧ take_num (tok +:+ rest) = tok.
Proof.
  unfold match_here. destruct (after_literal label s) as [r|] eqn:Hlit; [|done].
  apply after_literal_Some in Hlit as ->.
  destruct (lstrip_split r) as (ws & Hr & Hws).
  destruct (take_num_split (lstrip r)) as [rest Hrest].
  destruct (take_num (lstrip r)) as [|c tok'] eqn:Htok; [done|].
  intros [= <-]. exists ws, c, tok', rest. split_and!; [|done|done| |].
  - by rewrite Hr at 1; rewrite Hrest at 1.
  - destruct (lstrip r) as [|c0 r0]; [done|]. simpl in Htok.
    destruct (is_num c0) eqn:E; [|done]. by injection Htok as <- _.
  - rewrite <- Hrest. done.
Qed.

Lemma match_here_found label ws c rest :
  lstrip ws = "" → is_num c = true →
  is_Some (match_here label (label +:+ ws +:+ String c rest)).
Proof.
  intros Hws Hc. unfold match_here.
  rewrite after_literal_append, lstrip_spaces_then_num by done.
  simpl. rewrite Hc. eauto.
Qed.

(** A search succeeds exactly on the texts that hold, anywhere, the label,
    then whitespace, then a digit or a dot. *)
Lemma re_search_Some label s tok :
  re_search label s = Some tok →
  ∃ pre ws c tok' rest,
    s = pre +:+ label +:+ ws +:+ tok +:+ rest ∧ lstrip ws = "" ∧
    tok = String c tok' ∧ is_num c = true ∧ take_num (tok +:+ rest) = tok.
Proof.
  induction s as [|a s IH]; simpl.
  - destruct (match_here label "") as [t|] eqn:E; [|done].
    intros [= ->]. apply match_here_Some in E as (ws & c & tok' & rest & ?).
    by exists "", ws, c, tok', rest.
  - destruct (match_here label (String a s)) as [t|] eqn:E.
    + intros [= ->]. apply match_here_Some in E as (ws & c & tok' & rest & ?).
      by exists "", ws, c, tok', rest.
    + intros Hs. destruct (IH Hs) as (pre & ws & c & tok' & rest & -> & ?).
      by exists (String a pre), ws, c, tok', rest.
Qed.

(** The match that a search returns is the leftmost one: the pattern
    matches at no earlier position. *)
Lemma re_search_leftmost label s tok :
  re_search label s = Some tok →
  ∃ pre rest,
    s = pre +:+ rest ∧ match_here label rest = Some tok ∧
    ∀ p1 p2, pre = p1 +:+ p2 → p2 ≠ "" → match_here label (p2 +:+ rest) = None.
Proof.
  induction s as [|a s IH]; simpl.
  - destruct (match_here label "") as [t|] eqn:E; [|done].
    intros [= ->]. exists "", "". split_and!; [done..|].
    intros [|? ?] [|? ?]; done.
  - destruct (match_here label (String a s)) as [t|] eqn:E.
    + intros [= ->]. exists "", (String a s). split_and!; [done..|].
      intros [|? ?] [|? ?]; done.
    + intros Hs. destruct (IH Hs) as (pre & rest & -> & Hm & Hleft).
      exists (String a pre), rest. split_and!; [done..|].
      intros [|b p1] p2.
      * rewrite append_empty_l. by intros <- _.
      * rewrite append_cons. intros [= <- ->] Hne. by apply (Hleft p1 p2).
Qed.

Lemma re_search_found label pre ws c rest :
  lstrip ws = "" → is_num c = true →
  is_Some (re_search label (pre +:+ label +:+ ws +:+ String c rest)).
Proof.
  intros Hws Hc. induction pre as [|a pre IH].
  - rewrite append_empty_l.
    destruct (match_here_found label ws c rest Hws Hc) as [t Ht].
    destruct (label +:+ ws +:+ String c rest); simpl; rewrite Ht; eauto.
  - rewrite append_cons. simpl. destruct (match_here label _); eauto.
Qed.

Lemma re_search_is_Some label s :
  is_Some (re_search label s) ↔
  ∃ pre ws c rest,
    s = pre +:+ label +:+ ws +:+ String c rest ∧ lstrip ws = "" ∧ is_num c = true.
Proof.
  split.
  - intros [tok Htok].
    apply re_search_Some in Htok as (pre & ws & c & tok' & rest & -> & ? & -> & ? & _).
    by exists pre, ws, c, (tok' +:+ rest).
  - intros (pre & ws & c & rest & -> & ? & ?). by apply re_search_found.
Qed.

End TextFacts.

(** ** Claims on the cut analyzer *)

(** C1.  For every edge (u, v) that [count_edges_in_cut_and_max_partition]
    reads from the original graph and every partition P, the edge adds
    exactly 1 to the counter that the function returns for P when exactly
    one of u, v is in P's node list, and 0 otherwise.  The edge is the last
    line of the graph file [g']; the counters before it are those that the
    function returns for the file [g] holding the lines that precede it.

    Consequently: an edge with both endpoints in P adds 0 to P.  For the
    other two consequences the membership of an endpoint is read as
    exclusive, since the code lets partitions overlap: when u is in the node
    list of P and of no other partition and v is in that of Q and of no
    other, with P and Q distinct, the edge adds 1 to P, 1 to Q and 0 to
    every other partition; when one endpoint is in the node list of P and of
    no other partition and the other endpoint is in no node list at all, the
    edge adds 1 to P and 0 to every other partition, whichever endpoint is
    the one in P.  Without exclusivity the rule of the first sentence is the
    one that applies to each partition. *)
Theorem cut_counter_xor_increment
    (fs : filesystem) (g g' : string)
    (nbp : list (string * list string)) (lines : list string) (line u v : string) :
  NoDup (dict_keys nbp) →
  fs g = inr lines → fs g' = inr (lines ++ [line])%list →
  re_search init_label (strip line) = Some u →
  re_search term_label (strip line) = Some v →
  let before P :=
    dict_get P (count_edges_in_cut_and_max_partition fs g nbp).1.1 in
  let after P :=
    dict_get P (count_edges_in_cut_and_max_partition fs g' nbp).1.1 in
  (∀ P nodes, (P, nodes) ∈ nbp →
     ∃ c, before P = Some c
          ∧ after P
            = Some (c + (if xorb (node_in u nodes) (node_in v nodes) then 1 else 0))%Z)
  ∧ (∀ P nodes, (P, nodes) ∈ nbp → u ∈ nodes → v ∈ nodes →
       ∃ c, before P = Some c ∧ after P = Some c)
  ∧ (∀ P Q nodesP nodesQ, (P, nodesP) ∈ nbp → (Q, nodesQ) ∈ nbp → P ≠ Q →
       (∀ R nodesR, (R, nodesR) ∈ nbp →
          (u ∈ nodesR ↔ R = P) ∧ (v ∈ nodesR ↔ R = Q)) →
       ∀ R nodesR, (R, nodesR) ∈ nbp →
         ∃ c, before R = Some c
              ∧ after R = Some (c + (if decide (R = P ∨ R = Q) then 1 else 0))%Z)
  ∧ (∀ a b P nodesP, (a = u ∧ b = v) ∨ (a = v ∧ b = u) → (P, nodesP) ∈ nbp →
       (∀ R nodesR, (R, nodesR) ∈ nbp → (a ∈ nodesR ↔ R = P) ∧ b ∉ nodesR) →
       ∀ R nodesR, (R, nodesR) ∈ nbp →
         ∃ c, before R = Some c
              ∧ after R = Some (c + (if decide (R = P) then 1 else 0))%Z).
Proof.
  intros Hnd Hg Hg' Hu Hv. cbv zeta.
  rewrite (count_edges_readable fs g nbp lines) by done.
  rewrite (count_edges_readable fs g' nbp (lines ++ [line])) by done.
  assert (∀ P nodes, (P, nodes) ∈ nbp →
            ∃ c, dict_get P (counters_after nbp lines) = Some c
                 ∧ dict_get P (counters_after nbp (lines ++ [line]))
                   = Some (c + contribution u v nodes)%Z) as Hadd.
  { intros P nodes Hin. by apply line_adds_contribution. }
  split_and!.
  - intros P nodes Hin. by apply Hadd.
  - intros P nodes Hin Hun Hvn.
    destruct (Hadd P nodes Hin) as (c & Hc & Hc'). exists c. split; [done|].
    by rewrite Hc', contribution_both, Z.add_0_r.
  - intros P Q nodesP nodesQ HP HQ Hne Honly R nodesR HR.
    destruct (Honly R nodesR HR) as [HuR HvR].
    replace (if decide (R = P ∨ R = Q) then 1 else 0)%Z
      with (contribution u v nodesR); [by apply Hadd|].
    destruct (decide (R = P ∨ R = Q)) as [[->| ->]|Hno].
    + apply contribution_left; [by apply HuR|]. rewrite HvR. congruence.
    + apply contribution_right; [|by apply HvR]. rewrite HuR. congruence.
    + apply contribution_neither; [rewrite HuR | rewrite HvR]; tauto.
  - intros a b P nodesP Hab HP Honly R nodesR HR.
    destruct (Honly R nodesR HR) as [HaR HbR].
    replace (if decide (R = P) then 1 else 0)%Z
      with (contribution u v nodesR); [by apply Hadd|].
    destruct Hab as [[-> ->]|[-> ->]]; destruct (decide (R = P)) as [->|Hno].
    + apply contribution_left; [by apply HaR | done].
    + apply contribution_neither; [rewrite HaR | ]; done.
    + apply contribution_right; [done | by apply HaR].
    + apply contribution_neither; [ | rewrite HaR]; done.
Qed.

(** The graph [G] is [G1] followed by the edge (2,3): for the function this
    edge adds 1 to [A] and 1 to [B]. *)
Lemma cut_counter_xor_increment_witness :
  NoDup (dict_keys Scenario.nodes_by_partition)
  ∧ Samples.fs "G1" = inr [Scenario.record "1" "2"]
  ∧ Samples.fs "G" = inr ([Scenario.record "1" "2"] ++ [Scenario.record "2" "3"])%list
  ∧ re_search init_label (strip (Scenario.record "2" "3")) = Some "2"
  ∧ re_search term_label (strip (Scenario.record "2" "3")) = Some "3"
  ∧ (∃ c,
       dict_get "A" (count_edges_in_cut_and_max_partition Samples.fs "G1"
                       Scenario.nodes_by_partition).1.1 = Some c
       ∧ dict_get "A" (count_edges_in_cut_and_max_partition Samples.fs "G"
                         Scenario.nodes_by_partition).1.1 = Some (c + 1)%Z)
  ∧ (∃ c,
       dict_get "B" (count_edges_in_cut_and_max_partition Samples.fs "G1"
                       Scenario.nodes_by_partition).1.1 = Some c
       ∧ dict_get "B" (count_edges_in_cut_and_max_partition Samples.fs "G"
                         Scenario.nodes_by_partition).1.1 = Some (c + 1)%Z).
Proof.
  assert (NoDup (dict_keys Scenario.nodes_by_partition)) as Hnd.
  { apply (bool_decide_unpack _). vm_compute. exact I. }
  assert (Samples.fs "G1" = inr [Scenario.record "1" "2"]) as Hg by reflexivity.
  assert (Samples.fs "G"
          = inr ([Scenario.record "1" "2"] ++ [Scenario.record "2" "3"])%list)
    as Hg' by reflexivity.
  assert (re_search init_label (strip (Scenario.record "2" "3")) = Some "2") as Hu
    by (vm_compute; reflexivity).
  assert (re_search term_label (strip (Scenario.record "2" "3")) = Some "3") as Hv
    by (vm_compute; reflexivity).
  destruct (cut_counter_xor_increment Samples.fs "G1" "G"
              Scenario.nodes_by_partition
              [Scenario.record "1" "2"] (Scenario.record "2" "3") "2" "3"
              Hnd Hg Hg' Hu Hv) as [Hxor _].
  split_and!; [done..| |].
  - apply (Hxor "A" ["1"; "2"]). apply (bool_decide_unpack _). vm_compute. exact I.
  - apply (Hxor "B" ["3"]). apply (bool_decide_unpack _). vm_compute. exact I.
Defined.

(** ** Claims on the report of the cut analyzer *)

(** C4.  When the graph file is readable and there is at least one
    partition, the partition returned as argmax is the first one, in the
    insertion order of the PartitionSet, whose counter equals the greatest
    counter: no counter exceeds it and every partition before it has a
    strictly smaller counter.  The result is a function of the inputs, so a
    second run on the same inputs returns the same partition, ties or not.
    The insertion order is the order in which readable, distinct partition
    files were supplied to the extractor. *)
Theorem argmax_first_in_insertion_order
    (fs : filesystem) (g : string) (lines : list string)
    (nbp : list (string * list string)) :
  NoDup (dict_keys nbp) → nbp ≠ [] → fs g = inr lines →
  (∃ p before after c,
     count_edges_in_cut_and_max_partition fs g nbp
       = ((counters_after nbp lines, Some p), [])
     ∧ dict_keys nbp = (before ++ p :: after)%list
     ∧ dict_get p (counters_after nbp lines) = Some c
     ∧ (∀ k n, dict_get k (counters_after nbp lines) = Some n → (n ≤ c)%Z)
     ∧ (∀ k n, k ∈ before →
          dict_get k (counters_after nbp lines) = Some n → (n < c)%Z))
  ∧ (∀ files, NoDup files → (∀ f, f ∈ files → readable fs f) →
       dict_keys (extract_unique_nodes_from_multiple_files fs files).1 = files).
Proof.
  intros Hnd Hne Hg. split; [|intros files; apply extract_keys_in_supply_order].
  destruct (max_key_first (counters_after nbp lines))
    as (p & before & after & c & Hmax & Hkeys & Hp & Hle & Hlt).
  { intros Hnil. apply (f_equal dict_keys) in Hnil.
    rewrite counters_after_keys in Hnil by done. by destruct nbp. }
  exists p, before, after, c. split_and!;
    [|by rewrite <- (counters_after_keys nbp lines)|done..].
  unfold count_edges_in_cut_and_max_partition. rewrite Hg.
  fold (counters_after nbp lines). by rewrite Hmax.
Qed.

(** In the scenario both partitions end with one cut edge. *)
Lemma argmax_first_in_insertion_order_witness :
  NoDup (dict_keys Scenario.nodes_by_partition)
  ∧ Scenario.nodes_by_partition ≠ []
  ∧ Scenario.fs "G" = inr [Scenario.record "1" "2"; Scenario.record "2" "3"]
  ∧ ∃ p before after c,
      count_edges_in_cut_and_max_partition Scenario.fs "G" Scenario.nodes_by_partition
        = ((counters_after Scenario.nodes_by_partition
              [Scenario.record "1" "2"; Scenario.record "2" "3"], Some p), [])
      ∧ dict_keys Scenario.nodes_by_partition = (before ++ p :: after)%list
      ∧ dict_get p (counters_after Scenario.nodes_by_partition
                      [Scenario.record "1" "2"; Scenario.record "2" "3"]) = Some c
      ∧ (∀ k n, dict_get k (counters_after Scenario.nodes_by_partition
                      [Scenario.record "1" "2"; Scenario.record "2" "3"]) = Some n →
                (n ≤ c)%Z)
      ∧ (∀ k n, k ∈ before →
           dict_get k (counters_after Scenario.nodes_by_partition
                      [Scenario.record "1" "2"; Scenario.record "2" "3"]) = Some n →
           (n < c)%Z).
Proof.
  assert (NoDup (dict_keys Scenario.nodes_by_partition)) as Hnd.
  { apply (bool_decide_unpack _). vm_compute. exact I. }
  assert (Scenario.nodes_by_partition ≠ []) as Hne by discriminate.
  assert (Scenario.fs "G" = inr [Scenario.record "1" "2"; Scenario.record "2" "3"])
    as Hg by reflexivity.
  split_and!; [done..|].
  exact (proj1 (argmax_first_in_insertion_order _ _ _ _ Hnd Hne Hg)).
Defined.

(** Without any partition [max] raises inside [try]: the handler prints and
    no argmax is returned. *)
Lemma argmax_absent_without_partition
    (fs : filesystem) (g : string) (lines : list string) :
  fs g = inr lines →
  count_edges_in_cut_and_max_partition fs g []
  = (([], None), ["Error processing the original graph file: " +:+ msg_empty_max]).
Proof.
  intros Hg. unfold count_edges_in_cut_and_max_partition. rewrite Hg.
  assert (fold_left (count_line []) lines (zero_counts []) = []) as ->.
  { change (zero_counts []) with (@nil (string * Z)). clear Hg.
    induction lines as [|line lines IH]; [done|]. simpl.
    replace (count_line [] [] line) with (@nil (string * Z)); [done|].
    unfold count_line.
    by destruct (re_search init_label (strip line)),
         (re_search term_label (strip line)). }
  done.
Qed.

(** C5.  When the original graph file cannot be opened or read, the function
    returns normally: it prints the error and returns the zero-initialized
    counters (one counter per partition, each 0) together with no argmax. *)
Theorem unreadable_graph_zero_report
    (fs : filesystem) (g : string) (nbp : list (string * list string)) (e : exn) :
  fs g = inl e →
  count_edges_in_cut_and_max_partition fs g nbp
    = ((zero_counts nbp, None),
       ["Error processing the original graph file: " +:+ str e])
  ∧ (∀ P, P ∈ dict_keys (zero_counts nbp) ↔ P ∈ dict_keys nbp)
  ∧ (∀ P, P ∈ dict_keys nbp → dict_get P (zero_counts nbp) = Some 0%Z)
  ∧ (∀ P n, (P, n) ∈ zero_counts nbp → n = 0%Z).
Proof.
  intros Hg. split_and!.
  - unfold count_edges_in_cut_and_max_partition. by rewrite Hg.
  - intros P. unfold zero_counts.
    rewrite (set_loop_elem_keys id (fun _ => 0%Z)), map_id.
    split; [intros [Hin|Hin]; [by apply elem_of_nil in Hin | done] | auto].
  - apply zero_counts_get.
  - apply zero_counts_values.
Qed.

Lemma unreadable_graph_zero_report_witness :
  Scenario.fs "missing" = inl (OSError "missing")
  ∧ count_edges_in_cut_and_max_partition Scenario.fs "missing"
      Scenario.nodes_by_partition
    = ((zero_counts Scenario.nodes_by_partition, None),
       ["Error processing the original graph file: " +:+ str (OSError "missing")]).
Proof.
  assert (Scenario.fs "missing" = inl (OSError "missing")) as Hg by reflexivity.
  split; [done|].
  exact (proj1 (unreadable_graph_zero_report _ _ Scenario.nodes_by_partition _ Hg)).
Defined.

(** ** Claims on the node extractor *)

(** C3, as stated, fails: with the files [A], [missing], [B] supplied in this
    order, [B] is readable and yet has no entry in the returned mapping. *)
Lemma extraction_skips_failed_file_counterexample :
  "B" ∈ ["A"; "missing"; "B"]
  ∧ readable Scenario.fs "B"
  ∧ extract_unique_nodes_from_multiple_files Scenario.fs ["A"; "missing"; "B"]
    = ([("A", ["1"; "2"])], ["Error processing files: missing"])
  ∧ dict_get "B"
      (extract_unique_nodes_from_multiple_files Scenario.fs ["A"; "missing"; "B"]).1
    = None.
Proof.
  split_and!.
  - apply (bool_decide_unpack _). vm_compute. exact I.
  - by eexists.
  - vm_compute. reflexivity.
  - vm_compute. reflexivity.
Qed.

(** C3, amended.  When reading a file fails, the error is printed and the
    extraction stops there: the returned mapping is the one built from the
    files listed before the first failing file, it has an entry for exactly
    those files, each with the nodes extracted from it, and the files listed
    after the failing one are not processed. *)
Theorem extraction_stops_at_first_failure
    (fs : filesystem) (pre post : list string) (bad : string) (e : exn) :
  (∀ f, f ∈ pre → readable fs f) → fs bad = inl e →
  extract_unique_nodes_from_multiple_files fs (pre ++ bad :: post)
    = ((extract_unique_nodes_from_multiple_files fs pre).1,
       ["Error processing files: " +:+ str e])
  ∧ (∀ f, f ∈ dict_keys
              (extract_unique_nodes_from_multiple_files fs (pre ++ bad :: post)).1
          ↔ f ∈ pre)
  ∧ (∀ f, f ∈ pre →
       dict_get f (extract_unique_nodes_from_multiple_files fs (pre ++ bad :: post)).1
       = Some (nodes_of_file fs f)).
Proof.
  intros Hr Hbad. unfold extract_unique_nodes_from_multiple_files.
  rewrite (extract_loop_stops fs pre bad post e) by done.
  rewrite extract_loop_readable by done. simpl. split_and!; [done| |].
  - intros f. rewrite (set_loop_elem_keys id (nodes_of_file fs)), map_id.
    split; [intros [Hin|Hin]; [by apply elem_of_nil in Hin | done] | auto].
  - intros f Hf.
    apply (set_loop_get_fun id (nodes_of_file fs) (nodes_of_file fs)); [done|].
    by rewrite map_id.
Qed.

Lemma extraction_stops_at_first_failure_witness :
  (∀ f, f ∈ ["A"] → readable Scenario.fs f)
  ∧ Scenario.fs "missing" = inl (OSError "missing")
  ∧ extract_unique_nodes_from_multiple_files Scenario.fs (["A"] ++ "missing" :: ["B"])
    = ((extract_unique_nodes_from_multiple_files Scenario.fs ["A"]).1,
       ["Error processing files: " +:+ str (OSError "missing")]).
Proof.
  assert (∀ f, f ∈ ["A"] → readable Scenario.fs f) as Hr.
  { intros f Hf. apply list_elem_of_singleton in Hf as ->. by eexists. }
  assert (Scenario.fs "missing" = inl (OSError "missing")) as Hbad by reflexivity.
  split_and!; [done..|].
  exact (proj1 (extraction_stops_at_first_failure _ _ ["B"] _ _ Hr Hbad)).
Defined.

(** ** Claims on the recognition of edges and of node identifiers *)

(** C6, as stated, fails: in [G_split] the record of the edge (2,3) has its
    two tokens in the file, on consecutive lines, and the edge is classified
    against no partition; the same record on one line, in [G], adds 1 to
    each partition. *)
Lemma split_record_counterexample :
  Scenario.fs "G_split"
    = inr [Scenario.record "1" "2";
           "{ " +:+ field "init_node" "2" +:+ ",";
           field "term_node" "3" +:+ " }"]
  ∧ re_search init_label (strip ("{ " +:+ field "init_node" "2" +:+ ",")) = Some "2"
  ∧ re_search term_label (strip (field "term_node" "3" +:+ " }")) = Some "3"
  ∧ count_edges_in_cut_and_max_partition Scenario.fs "G_split"
      Scenario.nodes_by_partition
    = (([("A", 0%Z); ("B", 0%Z)], Some "A"), [])
  ∧ count_edges_in_cut_and_max_partition Scenario.fs "G"
      Scenario.nodes_by_partition
    = (([("A", 1%Z); ("B", 1%Z)], Some "A"), []).
Proof. split_and!; vm_compute; reflexivity. Qed.

(** C6, amended.  The cut analyzer recognizes an edge on a line: a line on
    which both patterns match gives the edge (first [init_node] token, first
    [term_node] token), which is classified against every partition; a line
    on which one of the patterns does not match changes no counter.  Whether
    a pattern matches depends only on the presence, anywhere on the line, of
    its label followed by optional whitespace and a digit or dot.  So the
    counter of each partition ends as the number of lines that hold both
    tokens and whose edge has exactly one endpoint in the partition. *)
Theorem edge_recognized_on_one_line
    (fs : filesystem) (g : string) (lines : list string)
    (nbp : list (string * list string)) :
  NoDup (dict_keys nbp) → fs g = inr lines →
  (∀ P nodes, (P, nodes) ∈ nbp →
     dict_get P (count_edges_in_cut_and_max_partition fs g nbp).1.1
     = Some (Z.of_nat (List.length (List.filter (line_crosses nodes) lines))))
  ∧ (∀ cut line u v,
       re_search init_label (strip line) = Some u →
       re_search term_label (strip line) = Some v →
       count_line nbp cut line = count_edge u v nbp cut)
  ∧ (∀ cut line,
       re_search init_label (strip line) = None
       ∨ re_search term_label (strip line) = None →
       count_line nbp cut line = cut)
  ∧ (∀ label s,
       is_Some (re_search label s) ↔
       ∃ pre ws c rest,
         s = pre +:+ label +:+ ws +:+ String c rest
         ∧ lstrip ws = "" ∧ is_num c = true)
  ∧ (∀ label s tok,
       re_search label s = Some tok →
       ∃ pre rest,
         s = pre +:+ rest ∧ match_here label rest = Some tok ∧
         ∀ p1 p2, pre = p1 +:+ p2 → p2 ≠ "" →
                  match_here label (p2 +:+ rest) = None).
Proof.
  intros Hnd Hg. split_and!; [| | | |apply re_search_leftmost].
  - intros P nodes Hin. rewrite (count_edges_readable fs g nbp lines) by done.
    by apply counters_after_get.
  - intros cut line u v Hu Hv. unfold count_line. by rewrite Hu, Hv.
  - intros cut line [Hn|Hn]; unfold count_line; rewrite Hn; [done|].
    by destruct (re_search init_label (strip line)).
  - apply re_search_is_Some.
Qed.

Lemma edge_recognized_on_one_line_witness :
  NoDup (dict_keys Scenario.nodes_by_partition)
  ∧ Scenario.fs "G_split"
    = inr [Scenario.record "1" "2";
           "{ " +:+ field "init_node" "2" +:+ ",";
           field "term_node" "3" +:+ " }"]
  ∧ dict_get "B"
      (count_edges_in_cut_and_max_partition Scenario.fs "G_split"
         Scenario.nodes_by_partition).1.1
    = Some (Z.of_nat (List.length (List.filter (line_crosses ["3"])
              [Scenario.record "1" "2";
               "{ " +:+ field "init_node" "2" +:+ ",";
               field "term_node" "3" +:+ " }"]))).
Proof.
  assert (NoDup (dict_keys Scenario.nodes_by_partition)) as Hnd.
  { apply (bool_decide_unpack _). vm_compute. exact I. }
  assert (Scenario.fs "G_split"
          = inr [Scenario.record "1" "2";
                 "{ " +:+ field "init_node" "2" +:+ ",";
                 field "term_node" "3" +:+ " }"]) as Hg by reflexivity.
  split_and!; [done..|].
  apply (proj1 (edge_recognized_on_one_line _ _ _ _ Hnd Hg) "B" ["3"]).
  apply (bool_decide_unpack _). vm_compute. exact I.
Defined.

(** C2, as stated, fails: [2] and [2.0] denote the same number, node 2 is in
    partition [A], and the edge written (2.0, 3) in [G_decimal] adds nothing
    to [A], whereas the same edge written (2, 3) in [G] adds 1 to it. *)
Lemma canonical_node_id_counterexample :
  same_number "2" "2.0"
  ∧ extract_unique_nodes_from_multiple_files Scenario.fs ["A"; "B"]
    = (Scenario.nodes_by_partition, [])
  ∧ node_in "2" ["1"; "2"] = true
  ∧ node_in "2.0" ["1"; "2"] = false
  ∧ count_edges_in_cut_and_max_partition Scenario.fs "G"
      Scenario.nodes_by_partition
    = (([("A", 1%Z); ("B", 1%Z)], Some "A"), [])
  ∧ count_edges_in_cut_and_max_partition Scenario.fs "G_decimal"
      Scenario.nodes_by_partition
    = (([("A", 0%Z); ("B", 1%Z)], Some "B"), []).
Proof. split_and!; vm_compute; reflexivity. Qed.

(** C2, amended.  A node identifier is the text captured by the pattern,
    used as it is: the node list of a partition file holds exactly the texts
    captured on its lines, a token of the graph file is a member when the
    same text was captured from the partition file, and the counter of the
    partition counts the graph lines whose two tokens differ in that. *)
Theorem node_ids_compared_as_text
    (fs : filesystem) (files : list string) (g : string) (lines : list string) :
  NoDup files → (∀ f, f ∈ files → readable fs f) → fs g = inr lines →
  ∀ f flines, f ∈ files → fs f = inr flines →
    dict_get f (extract_unique_nodes_from_multiple_files fs files).1
      = Some (nodes_of_lines flines)
    ∧ (∀ tok, node_in tok (nodes_of_lines flines) = true ↔
              ∃ line, line ∈ flines ∧
                (re_search init_label (strip line) = Some tok
                 ∨ re_search term_label (strip line) = Some tok))
    ∧ dict_get f
        (count_edges_in_cut_and_max_partition fs g
           (extract_unique_nodes_from_multiple_files fs files).1).1.1
      = Some (Z.of_nat
                (List.length (List.filter (line_crosses_file flines) lines))).
Proof.
  intros Hnd Hr Hg f flines Hf Hfl.
  assert (nodes_of_file fs f = nodes_of_lines flines) as Hnodes
    by (unfold nodes_of_file; by rewrite Hfl).
  assert (∀ tok, node_in tok (nodes_of_lines flines) = captured_in tok flines)
    as Hmem.
  { intros tok. unfold node_in. destruct (captured_in tok flines) eqn:E.
    - apply bool_decide_eq_true_2. by apply nodes_of_lines_elem.
    - apply bool_decide_eq_false_2. rewrite nodes_of_lines_elem. congruence. }
  rewrite extract_all_readable by done. simpl.
  set (nbp := map (fun f => (f, nodes_of_file fs f)) files).
  assert (dict_keys nbp = files) as Hkeys.
  { unfold dict_keys, nbp. rewrite map_map. apply map_id. }
  assert ((f, nodes_of_lines flines) ∈ nbp) as Hin.
  { rewrite <- Hnodes. apply list_elem_of_fmap. by exists f. }
  split_and!.
  - apply dict_get_NoDup; [by rewrite Hkeys | done].
  - intros tok. rewrite Hmem. unfold captured_in, captured_on.
    rewrite existsb_exists. split.
    + intros (line & Hl & Hc). exists line. split; [by apply list_elem_of_In|].
      by rewrite orb_true_iff, !bool_decide_eq_true in Hc.
    + intros (line & Hl & Hc). exists line. split; [by apply list_elem_of_In|].
      by rewrite orb_true_iff, !bool_decide_eq_true.
  - rewrite (count_edges_readable fs g nbp lines) by done.
    rewrite (counters_after_get nbp lines f (nodes_of_lines flines));
      [|by rewrite Hkeys|done].
    do 3 f_equal. apply filter_ext. intros line.
    unfold line_crosses, line_crosses_file.
    destruct (re_search init_label (strip line)),
      (re_search term_label (strip line)); try done.
    by rewrite !Hmem.
Qed.

Lemma node_ids_compared_as_text_witness :
  NoDup ["A"; "B"]
  ∧ (∀ f, f ∈ ["A"; "B"] → readable Scenario.fs f)
  ∧ Scenario.fs "G_decimal" = inr [Scenario.record "1" "2"; Scenario.record "2.0" "3"]
  ∧ "A" ∈ ["A"; "B"]
  ∧ Scenario.fs "A" = inr [Scenario.record "1" "2"]
  ∧ dict_get "A"
      (count_edges_in_cut_and_max_partition Scenario.fs "G_decimal"
         (extract_unique_nodes_from_multiple_files Scenario.fs ["A"; "B"]).1).1.1
    = Some (Z.of_nat
              (List.length
                 (List.filter (line_crosses_file [Scenario.record "1" "2"])
                    [Scenario.record "1" "2"; Scenario.record "2.0" "3"]))).
Proof.
  assert (NoDup ["A"; "B"]) as Hnd.
  { apply (bool_decide_unpack _). vm_compute. exact I. }
  assert (∀ f, f ∈ ["A"; "B"] → readable Scenario.fs f) as Hr.
  { intros f Hf. apply elem_of_cons in Hf as [->|Hf]; [by eexists|].
    apply list_elem_of_singleton in Hf as ->. by eexists. }
  assert ("A" ∈ ["A"; "B"]) as HA by apply list_elem_of_here.
  assert (Scenario.fs "G_decimal"
          = inr [Scenario.record "1" "2"; Scenario.record "2.0" "3"]) as Hg
    by reflexivity.
  assert (Scenario.fs "A" = inr [Scenario.record "1" "2"]) as HfA by reflexivity.
  split_and!; [done..|].
  exact (proj2 (proj2 (node_ids_compared_as_text _ _ _ _ Hnd Hr Hg "A" _ HA HfA))).
Defined.

(** ** Claims on the balance analyzer *)

Section Balance.
Implicit Types (nbp : list (string * list string)).

Lemma node_counts_loop nbp (acc : list (string * Z)) :
  fold_left (fun node_counts '(file, nodes) =>
               dict_set file (Z.of_nat (List.length nodes)) node_counts) nbp acc
  = fold_left (fun d a => dict_set a.1 (Z.of_nat (List.length a.2)) d) nbp acc.
Proof.
  revert acc. induction nbp as [|[file nodes] nbp IH]; intros acc; [done|].
  simpl. apply IH.
Qed.

Lemma node_counts_map nbp :
  NoDup (dict_keys nbp) →
  fold_left (fun node_counts '(file, nodes) =>
               dict_set file (Z.of_nat (List.length nodes)) node_counts) nbp []
  = map (fun a => (a.1, Z.of_nat (List.length a.2))) nbp.
Proof.
  intros Hnd. rewrite node_counts_loop.
  rewrite (set_loop_fresh fst (fun a => Z.of_nat (List.length a.2))); [done..|].
  intros k _. apply not_elem_of_nil.
Qed.

Lemma node_counts_not_nil nbp :
  nbp ≠ [] →
  fold_left (fun node_counts '(file, nodes) =>
               dict_set file (Z.of_nat (List.length nodes)) node_counts) nbp []
  ≠ [].
Proof.
  intros Hne. rewrite node_counts_loop.
  by apply (set_loop_not_nil fst (fun a => Z.of_nat (List.length a.2))).
Qed.

End Balance.

(** C7.  For a PartitionSet with at least one partition, the balance
    analyzer returns the mapping from each partition label to the number of
    nodes in its list, and a diff equal to the greatest of these numbers
    minus the smallest; diff is 0 when all partitions have the same size.
    The result depends on the mapping only.  The lists built by the
    extractor have no repetition, so their length is the cardinality of the
    node set. *)
Theorem balance_counts_and_diff (nbp : list (string * list string)) :
  NoDup (dict_keys nbp) → nbp ≠ [] →
  (∃ node_counts diff big small,
     count_nodes_in_partitions_and_diff nbp = inr (node_counts, diff)
     ∧ node_counts = map (fun a => (a.1, Z.of_nat (List.length a.2))) nbp
     ∧ diff = (big - small)%Z
     ∧ big ∈ dict_values node_counts
     ∧ (∀ n, n ∈ dict_values node_counts → (n ≤ big)%Z)
     ∧ small ∈ dict_values node_counts
     ∧ (∀ n, n ∈ dict_values node_counts → (small ≤ n)%Z)
     ∧ ((∀ n m, n ∈ dict_values node_counts → m ∈ dict_values node_counts → n = m) →
        diff = 0%Z))
  ∧ (∀ lines, NoDup (nodes_of_lines lines)
              ∧ List.length (nodes_of_lines lines)
                = size (fold_left extract_line lines ∅)).
Proof.
  intros Hnd Hne. split; [|intros lines; split; [apply nodes_of_lines_NoDup | done]].
  unfold count_nodes_in_partitions_and_diff.
  rewrite node_counts_map by done.
  set (node_counts := map (fun a => (a.1, Z.of_nat (List.length a.2))) nbp).
  destruct (dict_values node_counts) as [|n0 rest] eqn:Hvals.
  { destruct nbp; [done | discriminate]. }
  simpl.
  destruct (max_loop_spec rest n0) as [Hbig_in Hbig].
  destruct (min_loop_spec rest n0) as [Hsmall_in Hsmall].
  eexists node_counts, _, _, _. rewrite Hvals.
  split_and!; [done..|].
  intros Heq. rewrite (Heq _ _ Hbig_in Hsmall_in). lia.
Qed.

(** The scenario: [A] has two nodes, [B] has one, diff is 1. *)
Lemma balance_counts_and_diff_witness :
  NoDup (dict_keys Scenario.nodes_by_partition)
  ∧ Scenario.nodes_by_partition ≠ []
  ∧ ∃ node_counts diff big small,
      count_nodes_in_partitions_and_diff Scenario.nodes_by_partition
        = inr (node_counts, diff)
      ∧ node_counts
        = map (fun a => (a.1, Z.of_nat (List.length a.2))) Scenario.nodes_by_partition
      ∧ diff = (big - small)%Z
      ∧ big ∈ dict_values node_counts
      ∧ (∀ n, n ∈ dict_values node_counts → (n ≤ big)%Z)
      ∧ small ∈ dict_values node_counts
      ∧ (∀ n, n ∈ dict_values node_counts → (small ≤ n)%Z)
      ∧ ((∀ n m, n ∈ dict_values node_counts → m ∈ dict_values node_counts → n = m) →
         diff = 0%Z).
Proof.
  assert (NoDup (dict_keys Scenario.nodes_by_partition)) as Hnd.
  { apply (bool_decide_unpack _). vm_compute. exact I. }
  assert (Scenario.nodes_by_partition ≠ []) as Hne by discriminate.
  split_and!; [done..|].
  exact (proj1 (balance_counts_and_diff _ Hnd Hne)).
Defined.

(** C8.  With zero partitions the balance analyzer raises (the [ValueError]
    of [max] on an empty sequence leaves the function); it returns a value
    exactly when the mapping has at least one partition. *)
Theorem balance_requires_a_partition :
  count_nodes_in_partitions_and_diff [] = inl (ValueError msg_empty_max)
  ∧ ∀ nbp : list (string * list string),
      (∃ r, count_nodes_in_partitions_and_diff nbp = inr r) ↔ nbp ≠ [].
Proof.
  split; [done|]. intros nbp. split.
  - intros [r Hr] ->. discriminate.
  - intros Hne. unfold count_nodes_in_partitions_and_diff.
    pose proof (node_counts_not_nil nbp Hne) as Hnn.
    destruct (fold_left _ nbp []) as [|[k v] d]; [done|].
    simpl. eauto.
Qed.

(** ** The generator *)

Import GenerateGeojson.

Section GeneratorFacts.
Context {float : Type}.
Implicit Types (rnd : random_source float) (population : list Z)
  (draws : list (nat * nat)) (edges : gset (Z * Z)).

Lemma consecutive_product_even (N : Z) : ∃ k, (N * (N - 1) = k * 2)%Z.
Proof.
  destruct (Z.Even_or_Odd N) as [[q Hq]|[q Hq]].
  - exists (q * (N - 1))%Z. lia.
  - exists (N * q)%Z. lia.
Qed.

Lemma guard_exact (N M : Z) :
  (M >? N * (N - 1) / 2)%Z = true ↔ (2 * M > N * (N - 1))%Z.
Proof.
  destruct (consecutive_product_even N) as [k Hk].
  rewrite Hk, Z.div_mul by done. rewrite Z.gtb_gt. lia.
Qed.

Lemma edges_loop_Raise population M draws edges e :
  edges_loop population M draws edges = Raise e → e = ValueError msg_sample.
Proof.
  revert edges. induction draws as [|draw draws IH]; intros edges;
    cbn [edges_loop].
  - destruct (_ <? _)%Z; [|done].
    destruct (Nat.ltb _ _); [by intros [= <-] | done].
  - destruct (_ <? _)%Z; [|done].
    destruct (Nat.ltb _ _); [by intros [= <-]|].
    destruct (random_sample2 population draw) as [[a b]|]; [|done].
    destruct (_ && _); apply IH.
Qed.

Lemma make_features_Raise rnd nodes k (l : list (Z * Z)) e :
  make_features rnd nodes k l = Raise e → e = KeyError.
Proof.
  revert k. induction l as [|[a b] l IH]; intros k; simpl; [done|].
  destruct (dict_get a nodes), (dict_get b nodes); try by intros [= <-].
  destruct (make_features rnd nodes (S k) l) eqn:E; try done.
  intros [= <-]. by eapply IH.
Qed.

Lemma make_features_endpoints rnd nodes k (l : list (Z * Z)) fs :
  make_features rnd nodes k l = Return fs → map endpoints fs = l.
Proof.
  revert k fs. induction l as [|[a b] l IH]; intros k fs; simpl.
  - by intros [= <-].
  - destruct (dict_get a nodes), (dict_get b nodes); try done.
    destruct (make_features rnd nodes (S k) l) as [fs'| |] eqn:E; try done.
    intros [= <-]. simpl. f_equal. by eapply IH.
Qed.

Lemma range1_NoDup (N : Z) : NoDup (range1 N).
Proof.
  unfold range1. apply (NoDup_fmap_2 Z.of_nat), NoDup_seq.
Qed.

Lemma random_sample2_distinct population draw a b :
  NoDup population → random_sample2 population draw = Some (a, b) → a ≠ b.
Proof.
  intros Hnd. destruct draw as [i j]. unfold random_sample2.
  destruct (population !! i) as [x|] eqn:Hi; [|done].
  destruct (population !! j) as [y|] eqn:Hj; [|done].
  destruct (Nat.eqb i j) eqn:E; [done|]. intros [= -> ->] ->.
  apply Nat.eqb_neq in E. apply E. by eapply NoDup_lookup.
Qed.

Lemma simple_edges_empty : simple_edges ∅.
Proof. intros a b Hin. by apply not_elem_of_empty in Hin. Qed.

Lemma simple_edges_add edges a b :
  simple_edges edges → a ≠ b → (a, b) ∉ edges → (b, a) ∉ edges →
  simple_edges ({[(a, b)]} ∪ edges).
Proof.
  intros Hs Hab Hnew Hrev x y. rewrite !elem_of_union, !elem_of_singleton.
  intros [[= -> ->]|Hin].
  - split; [done|]. intros [[= ? ?]|?]; [congruence | done].
  - destruct (Hs x y Hin) as [Hxy Hyx]. split; [done|].
    intros [[= -> ->]|?]; done.
Qed.

Lemma edges_loop_simple population M draws edges edges' :
  NoDup population → simple_edges edges →
  edges_loop population M draws edges = Return edges' → simple_edges edges'.
Proof.
  intros Hnd. revert edges.
  induction draws as [|draw draws IH]; intros edges Hs; cbn [edges_loop].
  - destruct (_ <? _)%Z; [|by intros [= <-]].
    by destruct (Nat.ltb _ _).
  - destruct (_ <? _)%Z; [|by intros [= <-]].
    destruct (Nat.ltb _ _); [done|].
    destruct (random_sample2 population draw) as [[a b]|] eqn:Hd; [|done].
    destruct (bool_decide ((a, b) ∉ edges)) eqn:E1; simpl; [|by apply IH].
    destruct (bool_decide ((b, a) ∉ edges)) eqn:E2; simpl; [|by apply IH].
    apply bool_decide_eq_true in E1, E2. apply IH.
    apply simple_edges_add; [done| |done..].
    by eapply random_sample2_distinct.
Qed.

Lemma generate_geojson_Return rnd N M g :
  generate_geojson rnd N M = Return g →
  ∃ edges, simple_edges edges ∧ map endpoints (features g) = elements edges.
Proof.
  unfold generate_geojson. destruct (_ >? _)%Z; [done|].
  destruct (edges_loop _ M (sample_draws rnd) ∅) as [edges| |] eqn:Hloop; try done.
  destruct (make_features rnd _ 0 (elements edges)) as [fs| |] eqn:Hfs; try done.
  intros [= <-]. exists edges. split; [|by eapply make_features_endpoints].
  eapply edges_loop_simple; [| apply simple_edges_empty | done].
  unfold dict_keys. rewrite map_map. simpl. rewrite map_id. apply range1_NoDup.
Qed.

End GeneratorFacts.

(** ** Claims on the generator *)

(** C9.  For all integers N and M, [generate_geojson] raises its
    invalid-configuration error (the [ValueError] "Too many edges ...") if
    and only if M > N(N-1)/2, whatever the random source delivers: the test
    comes first, nothing is drawn and no graph is returned.  With N = 10 and
    M = 46 the error is raised; M equal to N(N-1)/2 passes the test, and for
    N = 10, M = 45 a random source that runs through all the pairs yields a
    graph of 45 edges. *)
Theorem too_many_edges_rejected {float : Type}
    (rnd : random_source float) (N M : Z) :
  (generate_geojson rnd N M = Raise (ValueError msg_too_many)
   ↔ (2 * M > N * (N - 1))%Z)
  ∧ generate_geojson rnd 10 46 = Raise (ValueError msg_too_many)
  ∧ ((2 * M = N * (N - 1))%Z →
     generate_geojson rnd N M ≠ Raise (ValueError msg_too_many))
  ∧ (∃ g, generate_geojson (exhaustive_source 10) 10 45 = Return g
          ∧ List.length (features g) = 45%nat).
Proof.
  assert (generate_geojson rnd N M = Raise (ValueError msg_too_many)
          ↔ (2 * M > N * (N - 1))%Z) as Hiff.
  { rewrite <- guard_exact. unfold generate_geojson.
    destruct (M >? N * (N - 1) / 2)%Z; [done|]. split; [|done].
    destruct (edges_loop _ M (sample_draws rnd) ∅) as [edges| e |] eqn:Hloop.
    - destruct (make_features rnd _ 0 (elements edges)) as [fs| e |] eqn:Hfs;
        try done.
      apply make_features_Raise in Hfs as ->. done.
    - apply edges_loop_Raise in Hloop as ->. done.
    - done. }
  split_and!.
  - exact Hiff.
  - reflexivity.
  - intros Heq Hraise. apply Hiff in Hraise. lia.
  - eexists. split; vm_compute; reflexivity.
Qed.

(** C10.  Every edge of a graph returned by [generate_geojson] has two
    distinct endpoints, no two features are the two orientations of one
    pair, and no pair of endpoints occurs twice. *)
Theorem generated_edges_have_distinct_endpoints {float : Type}
    (rnd : random_source float) (N M : Z) (g : geojson float) :
  generate_geojson rnd N M = Return g →
  (∀ f, f ∈ features g → init_node f ≠ term_node f)
  ∧ (∀ f f', f ∈ features g → f' ∈ features g →
       ¬ (init_node f' = term_node f ∧ term_node f' = init_node f))
  ∧ NoDup (map endpoints (features g)).
Proof.
  intros Hg. apply generate_geojson_Return in Hg as (edges & Hs & Hends).
  assert (∀ f, f ∈ features g → (init_node f, term_node f) ∈ edges) as Hin.
  { intros f Hf. apply elem_of_elements. rewrite <- Hends.
    apply list_elem_of_fmap. by exists f. }
  split_and!.
  - intros f Hf. by apply (Hs _ _ (Hin f Hf)).
  - intros f f' Hf Hf' [H1 H2].
    apply (Hs _ _ (Hin f Hf)). rewrite <- H1, <- H2. by apply Hin.
  - rewrite Hends. apply NoDup_elements.
Qed.

(** The second draw of [small_source] is the first edge reversed and is
    dropped; the two edges kept have distinct endpoints. *)
Lemma generated_edges_have_distinct_endpoints_witness :
  generate_geojson small_source 4 2 = Return small_graph
  ∧ (∀ f, f ∈ features small_graph → init_node f ≠ term_node f)
  ∧ (∀ f f', f ∈ features small_graph → f' ∈ features small_graph →
       ¬ (init_node f' = term_node f ∧ term_node f' = init_node f))
  ∧ NoDup (map endpoints (features small_graph)).
Proof.
  assert (generate_geojson small_source 4 2 = Return small_graph) as Hg
    by (vm_compute; reflexivity).
  split; [done|].
  exact (generated_edges_have_distinct_endpoints small_source 4 2 small_graph Hg).
Defined.

(** With fewer than two nodes and an edge count that passes the test,
    [random.sample] raises its own [ValueError]; it is not the
    configuration error. *)
Lemma small_population_sample_error {float : Type} (rnd : random_source float) :
  generate_geojson rnd (-1) 1 = Raise (ValueError msg_sample)
  ∧ ValueError msg_sample ≠ ValueError msg_too_many.
Proof.
  split; [|discriminate]. unfold generate_geojson.
  change (1 >? -1 * (-1 - 1) / 2)%Z with false. cbv iota.
  change (dict_keys _) with (@nil Z).
  by destruct (sample_draws rnd).
Qed.

(** * Further properties *)

Import Report Measures.

(** ** Whitespace around a line *)

Section StripFacts.
Implicit Types (s x ws label : string) (c : ascii).

Lemma is_space_not_num c : is_space c = true → is_num c = false.
Proof.
  intros Hs. destruct (is_num c) eqn:E; [|done].
  apply is_num_not_space in E. congruence.
Qed.

Lemma take_num_append_spaces x ws :
  lstrip ws = "" → take_num (x +:+ ws) = take_num x.
Proof.
  intros Hws. induction x as [|c x IH].
  - rewrite append_empty_l. destruct ws as [|w ws]; [done|]. simpl in *.
    destruct (is_space w) eqn:E; [|done]. by rewrite is_space_not_num.
  - rewrite append_cons. simpl. by rewrite IH.
Qed.

Lemma take_num_lstrip_append_spaces x ws :
  lstrip ws = "" → take_num (lstrip (x +:+ ws)) = take_num (lstrip x).
Proof.
  intros Hws. induction x as [|c x IH].
  - rewrite append_empty_l, Hws. done.
  - rewrite append_cons. simpl. destruct (is_space c); [done|].
    rewrite <- append_cons. by apply take_num_append_spaces.
Qed.

Lemma after_literal_append_spaces label x ws :
  string_forall (fun c => negb (is_space c)) label = true → lstrip ws = "" →
  after_literal label (x +:+ ws) =
  match after_literal label x with
  | Some r => Some (r +:+ ws)
  | None => None
  end.
Proof.
  intros Hlabel Hws. revert x. induction label as [|a label IH]; intros x.
  - by destruct x.
  - simpl in Hlabel. apply andb_true_iff in Hlabel as [Ha Hlabel].
    destruct x as [|b x].
    + rewrite append_empty_l. destruct ws as [|w ws]; [done|]. simpl in *.
      destruct (is_space w) eqn:E; [|done].
      destruct (Ascii.eqb_spec a w) as [->|]; [|done].
      by rewrite E in Ha.
    + rewrite append_cons. simpl. destruct (Ascii.eqb a b); [by apply IH | done].
Qed.

Lemma match_here_append_spaces label x ws :
  string_forall (fun c => negb (is_space c)) label = true → lstrip ws = "" →
  match_here label (x +:+ ws) = match_here label x.
Proof.
  intros Hlabel Hws. unfold match_here.
  rewrite after_literal_append_spaces by done.
  destruct (after_literal label x) as [r|]; [|done].
  by rewrite take_num_lstrip_append_spaces.
Qed.

Lemma match_here_spaces a label ws :
  is_space a = false → lstrip ws = "" → match_here (String a label) ws = None.
Proof.
  intros Ha Hws. unfold match_here. destruct ws as [|w ws]; [done|]. simpl in *.
  destruct (is_space w) eqn:E; [|done].
  destruct (Ascii.eqb_spec a w) as [->|]; [congruence | done].
Qed.

Lemma re_search_spaces a label ws :
  is_space a = false → lstrip ws = "" → re_search (String a label) ws = None.
Proof.
  intros Ha. induction ws as [|w ws IH]; intros Hws; [done|].
  cbn [re_search]. rewrite match_here_spaces by done.
  apply IH. simpl in Hws. by destruct (is_space w).
Qed.

Lemma re_search_append_spaces a label x ws :
  string_forall (fun c => negb (is_space c)) (String a label) = true →
  lstrip ws = "" →
  re_search (String a label) (x +:+ ws) = re_search (String a label) x.
Proof.
  intros Hlabel Hws.
  assert (is_space a = false) as Ha.
  { simpl in Hlabel. apply andb_true_iff in Hlabel as [Ha _].
    by destruct (is_space a). }
  induction x as [|c x IH].
  - rewrite append_empty_l. by rewrite re_search_spaces.
  - rewrite append_cons. cbn [re_search]. rewrite <- append_cons.
    rewrite match_here_append_spaces by done. by rewrite IH.
Qed.

Lemma re_search_lstrip a label s :
  is_space a = false →
  re_search (String a label) (lstrip s) = re_search (String a label) s.
Proof.
  intros Ha. induction s as [|c s IH]; [done|].
  simpl lstrip. destruct (is_space c) eqn:E; [|done].
  rewrite IH. cbn [re_search].
  replace (match_here (String a label) (String c s)) with (@None string); [done|].
  unfold match_here. simpl.
  destruct (Ascii.eqb_spec a c) as [->|]; [congruence | done].
Qed.

Lemma rstrip_split s : ∃ ws, s = rstrip s +:+ ws ∧ lstrip ws = "".
Proof.
  induction s as [|c s (ws & Hs & Hws)].
  - by exists "".
  - simpl. destruct (rstrip s) as [|r0 r] eqn:Hr.
    + rewrite append_empty_l in Hs. subst ws.
      destruct (is_space c) eqn:E.
      * exists (String c s). simpl. by rewrite E.
      * by exists s.
    + exists ws. rewrite !append_cons. rewrite append_cons in Hs. by rewrite <- Hs.
Qed.

Lemma re_search_strip a label s :
  string_forall (fun c => negb (is_space c)) (String a label) = true →
  re_search (String a label) (strip s) = re_search (String a label) s.
Proof.
  intros Hlabel.
  assert (is_space a = false) as Ha.
  { simpl in Hlabel. apply andb_true_iff in Hlabel as [Ha _].
    by destruct (is_space a). }
  unfold strip. destruct (rstrip_split (lstrip s)) as (ws & Hs & Hws).
  rewrite <- (re_search_lstrip a label s) by done.
  rewrite Hs at 2. by rewrite re_search_append_spaces.
Qed.

Lemma take_num_forall s : string_forall is_num (take_num s) = true.
Proof.
  induction s as [|c s IH]; [done|]. simpl.
  destruct (is_num c) eqn:E; [|done]. simpl. by rewrite E.
Qed.

Lemma re_search_token_shape label s tok :
  re_search label s = Some tok → tok ≠ "" ∧ string_forall is_num tok = true.
Proof.
  intros Hs.
  apply re_search_Some in Hs as (pre & ws & c & tok' & rest & _ & _ & Htok & _ & Hnum).
  split; [by rewrite Htok|]. rewrite <- Hnum. apply take_num_forall.
Qed.

End StripFacts.

(** X1.  [line.strip()] changes nothing for the two searches: on every line
    each pattern captures the same text (or fails alike) before and after
    the strip, so what the extractor adds and what the cut analyzer counts
    for a line does not depend on the whitespace around it. *)
Theorem strip_is_irrelevant_to_the_patterns (line : string) :
  re_search init_label (strip line) = re_search init_label line
  ∧ re_search term_label (strip line) = re_search term_label line
  ∧ (∀ S, extract_line S line
          = let S :=
              match re_search init_label line with
              | Some tok => {[tok]} ∪ S
              | None => S
              end in
            match re_search term_label line with
            | Some tok => {[tok]} ∪ S
            | None => S
            end)
  ∧ edge_of_line line
    = match re_search init_label line, re_search term_label line with
      | Some u, Some v => Some (u, v)
      | _, _ => None
      end.
Proof.
  assert (re_search init_label (strip line) = re_search init_label line) as Hi
    by (by apply re_search_strip).
  assert (re_search term_label (strip line) = re_search term_label line) as Ht
    by (by apply re_search_strip).
  split_and!; [done..| |].
  - intros S. unfold extract_line. by rewrite Hi, Ht.
  - unfold edge_of_line. by rewrite Hi, Ht.
Qed.

(** ** The node extractor on any list of files *)

Section ExtractorMore.
Implicit Types (fs : filesystem) (files : list string)
  (all_nodes : list (string * list string)).

Lemma dict_set_elem {V : Type} (k k' : string) (v v' : V) (d : list (string * V)) :
  (k', v') ∈ dict_set k v d → (k', v') = (k, v) ∨ (k', v') ∈ d.
Proof.
  induction d as [|[k0 v0] d IH]; simpl.
  - rewrite list_elem_of_singleton. auto.
  - destruct (decide (k = k0)) as [->|Hne]; rewrite !elem_of_cons; [tauto|].
    intros [?|Hin]; [tauto|]. destruct (IH Hin); tauto.
Qed.

Lemma dict_keys_set {V : Type} (k : string) (v : V) (d : list (string * V)) :
  dict_keys (dict_set k v d)
  = if bool_decide (k ∈ dict_keys d) then dict_keys d else (dict_keys d ++ [k])%list.
Proof.
  case_bool_decide as Hin.
  - by apply dict_keys_set_present.
  - rewrite dict_set_absent by done. unfold dict_keys. by rewrite map_app.
Qed.

Lemma set_loop_keys_fold {A V : Type} (key : A → string) (val : A → V)
    (l : list A) (d : list (string * V)) :
  dict_keys (fold_left (fun d a => dict_set (key a) (val a) d) l d)
  = fold_left (fun seen x => if bool_decide (x ∈ seen) then seen else (seen ++ [x])%list)
      (map key l) (dict_keys d).
Proof.
  revert d. induction l as [|a l IH]; intros d; simpl; [done|].
  by rewrite IH, dict_keys_set.
Qed.

Lemma first_occurrences_loop_NoDup (l seen : list string) :
  NoDup seen →
  NoDup (fold_left (fun seen x => if bool_decide (x ∈ seen) then seen else (seen ++ [x])%list)
           l seen).
Proof.
  revert seen. induction l as [|x l IH]; intros seen Hnd; simpl; [done|].
  apply IH. case_bool_decide as Hin; [done|].
  apply NoDup_app. split_and!; [done| |apply NoDup_singleton].
  intros y Hy Hy'. apply list_elem_of_singleton in Hy' as ->. done.
Qed.

Lemma first_occurrences_loop_elem (l seen : list string) x :
  x ∈ fold_left (fun seen x => if bool_decide (x ∈ seen) then seen else (seen ++ [x])%list)
        l seen
  ↔ x ∈ seen ∨ x ∈ l.
Proof.
  revert seen. induction l as [|y l IH]; intros seen; simpl.
  - rewrite elem_of_nil. tauto.
  - rewrite IH, elem_of_cons. case_bool_decide as Hin.
    + split; [tauto|]. intros [?|[->|?]]; tauto.
    + rewrite elem_of_app, list_elem_of_singleton. tauto.
Qed.

Lemma first_occurrences_NoDup (l : list string) : NoDup (first_occurrences l).
Proof. apply first_occurrences_loop_NoDup, NoDup_nil_2. Qed.

Lemma first_occurrences_elem (l : list string) x : x ∈ first_occurrences l ↔ x ∈ l.
Proof.
  unfold first_occurrences. rewrite first_occurrences_loop_elem, elem_of_nil. tauto.
Qed.

Lemma readable_prefix_readable fs files f :
  f ∈ readable_prefix fs files → readable fs f.
Proof.
  induction files as [|f0 files IH]; simpl; [by rewrite elem_of_nil|].
  unfold is_readable. destruct (fs f0) as [e|lines] eqn:E; [by rewrite elem_of_nil|].
  rewrite elem_of_cons. intros [->|Hin]; [by exists lines | by apply IH].
Qed.

Lemma readable_prefix_all fs files :
  readable_prefix fs files = files ↔ ∀ f, f ∈ files → readable fs f.
Proof.
  induction files as [|f0 files IH]; simpl; [by split; [intros _ f ?%elem_of_nil|]|].
  unfold is_readable. destruct (fs f0) as [e|lines] eqn:E.
  - split; [done|]. intros Hr. destruct (Hr f0) as [l Hl]; [apply list_elem_of_here|].
    congruence.
  - split.
    + intros [= Heq] f. rewrite elem_of_cons. intros [->|Hin]; [by exists lines|].
      by apply IH.
    + intros Hr. f_equal. apply IH. intros f Hf. by apply Hr, list_elem_of_further.
Qed.

Lemma readable_prefix_split fs files :
  readable_prefix fs files = files
  ∨ ∃ bad post e, files = (readable_prefix fs files ++ bad :: post)%list ∧ fs bad = inl e.
Proof.
  induction files as [|f0 files IH]; simpl; [by left|].
  unfold is_readable. destruct (fs f0) as [e|lines] eqn:E.
  - right. by exists f0, files, e.
  - destruct IH as [->|(bad & post & e & Hsplit & Hbad)]; [by left|].
    right. exists bad, post, e. split; [|done]. simpl. by rewrite <- Hsplit.
Qed.

Lemma extract_loop_prefix fs files all_nodes :
  (extract_loop fs files all_nodes).1
  = fold_left (fun d f => dict_set f (nodes_of_file fs f) d)
      (readable_prefix fs files) all_nodes.
Proof.
  revert all_nodes. induction files as [|f files IH]; intros all_nodes; [done|].
  simpl. unfold is_readable.
  destruct (fs f) as [e|lines] eqn:E; [done|]. simpl. rewrite IH.
  replace (nodes_of_file fs f) with (nodes_of_lines lines); [done|].
  unfold nodes_of_file. by rewrite E.
Qed.

Lemma extract_loop_entries fs files all_nodes f nodes :
  (f, nodes) ∈ (extract_loop fs files all_nodes).1 →
  (f, nodes) ∈ all_nodes
  ∨ (f ∈ files ∧ ∃ lines, fs f = inr lines ∧ nodes = nodes_of_lines lines).
Proof.
  revert all_nodes. induction files as [|f0 files IH]; intros all_nodes; simpl; [auto|].
  destruct (fs f0) as [e|lines] eqn:E; [auto|].
  intros Hin. apply IH in Hin as [Hin|(Hf & Hl)].
  - apply dict_set_elem in Hin as [[= -> ->]|Hin]; [|auto].
    right. split; [apply list_elem_of_here | by exists lines].
  - right. split; [by apply list_elem_of_further | done].
Qed.

End ExtractorMore.

(** X2.  Every entry of the mapping returned by the extractor is for a listed
    file that could be read, and its node list is duplicate-free and made of
    captured texts only: each node identifier is a non-empty run of digits
    and dots. *)
Theorem extracted_entries_are_numeric_tokens
    (fs : filesystem) (files : list string) (f : string) (nodes : list string) :
  (f, nodes) ∈ (extract_unique_nodes_from_multiple_files fs files).1 →
  f ∈ files ∧ readable fs f ∧ NoDup nodes
  ∧ ∀ tok, tok ∈ nodes → tok ≠ "" ∧ string_forall is_num tok = true.
Proof.
  intros Hin. apply extract_loop_entries in Hin as [Hin|(Hf & lines & Hl & ->)].
  { by apply elem_of_nil in Hin. }
  split_and!; [done | by exists lines | apply nodes_of_lines_NoDup |].
  intros tok Htok. apply nodes_of_lines_elem in Htok.
  unfold captured_in in Htok. apply existsb_exists in Htok as (line & _ & Hc).
  unfold captured_on in Hc. apply orb_true_iff in Hc as [Hc|Hc];
    apply bool_decide_eq_true in Hc; by eapply re_search_token_shape.
Qed.

Lemma extracted_entries_are_numeric_tokens_witness :
  ("A", ["1"; "2"]) ∈ (extract_unique_nodes_from_multiple_files Scenario.fs ["A"; "B"]).1
  ∧ "A" ∈ ["A"; "B"] ∧ readable Scenario.fs "A" ∧ NoDup ["1"; "2"]
  ∧ ∀ tok, tok ∈ ["1"; "2"] → tok ≠ "" ∧ string_forall is_num tok = true.
Proof.
  assert (("A", ["1"; "2"])
          ∈ (extract_unique_nodes_from_multiple_files Scenario.fs ["A"; "B"]).1) as Hin.
  { apply (bool_decide_unpack _). vm_compute. exact I. }
  split; [done|].
  exact (extracted_entries_are_numeric_tokens Scenario.fs ["A"; "B"] "A" ["1"; "2"] Hin).
Defined.

(** X3.  For any list of paths, the labels of the returned mapping are the
    paths listed before the first unreadable one, each once, in the order of
    their first occurrence; each of them maps to the nodes of its file.  A
    path listed twice gives one entry. *)
Theorem extracted_labels_are_first_occurrences
    (fs : filesystem) (files : list string) :
  dict_keys (extract_unique_nodes_from_multiple_files fs files).1
    = first_occurrences (readable_prefix fs files)
  ∧ NoDup (dict_keys (extract_unique_nodes_from_multiple_files fs files).1)
  ∧ (∀ f, f ∈ readable_prefix fs files →
       dict_get f (extract_unique_nodes_from_multiple_files fs files).1
       = Some (nodes_of_file fs f)).
Proof.
  unfold extract_unique_nodes_from_multiple_files. rewrite extract_loop_prefix.
  assert (dict_keys (fold_left (fun d f => dict_set f (nodes_of_file fs f) d)
                       (readable_prefix fs files) [])
          = first_occurrences (readable_prefix fs files)) as Hkeys.
  { rewrite (set_loop_keys_fold id (nodes_of_file fs)). by rewrite map_id. }
  split_and!; [done | rewrite Hkeys; apply first_occurrences_NoDup |].
  intros f Hf.
  apply (set_loop_get_fun id (nodes_of_file fs) (nodes_of_file fs)); [done|].
  by rewrite map_id.
Qed.

(** X4.  The extractor prints nothing exactly when every listed file can be
    read; otherwise it prints one line, for the first file that cannot. *)
Theorem extractor_prints_for_first_failure (fs : filesystem) (files : list string) :
  ((extract_unique_nodes_from_multiple_files fs files).2 = []
   ↔ ∀ f, f ∈ files → readable fs f)
  ∧ ((extract_unique_nodes_from_multiple_files fs files).2 = []
     ∨ ∃ pre bad post e,
         files = (pre ++ bad :: post)%list
         ∧ (∀ f, f ∈ pre → readable fs f) ∧ fs bad = inl e
         ∧ (extract_unique_nodes_from_multiple_files fs files).2
           = ["Error processing files: " +:+ str e]).
Proof.
  destruct (readable_prefix_split fs files) as [Hall|(bad & post & e & Hsplit & Hbad)].
  - pose proof (proj1 (readable_prefix_all fs files) Hall) as Hr.
    unfold extract_unique_nodes_from_multiple_files.
    rewrite extract_loop_readable by done. simpl. split; [done | by left].
  - assert (∀ f, f ∈ readable_prefix fs files → readable fs f) as Hr
      by apply readable_prefix_readable.
    assert ((extract_unique_nodes_from_multiple_files fs files).2
            = ["Error processing files: " +:+ str e]) as Hout.
    { unfold extract_unique_nodes_from_multiple_files. rewrite Hsplit at 1.
      by rewrite (extract_loop_stops fs _ bad post e). }
    split.
    + rewrite Hout. split; [done|]. intros Hall.
      destruct (Hall bad) as [lines Hl]; [|congruence].
      rewrite Hsplit, elem_of_app, elem_of_cons. auto.
    + right. by exists (readable_prefix fs files), bad, post, e.
Qed.

(** X5.  The nodes extracted from a file depend only on which lines occur in
    it: two files with the same lines, in any order and with any repetition,
    give the same nodes (as sets: the lists are duplicate-free and have the
    same members, hence the same length). *)
Theorem extraction_ignores_order_and_repetition
    (fs : filesystem) (f f' : string) (lines lines' : list string) :
  fs f = inr lines → fs f' = inr lines' →
  (∀ line, line ∈ lines ↔ line ∈ lines') →
  ∃ nodes nodes',
    extract_unique_nodes_from_multiple_files fs [f] = ([(f, nodes)], [])
    ∧ extract_unique_nodes_from_multiple_files fs [f'] = ([(f', nodes')], [])
    ∧ nodes ≡ₚ nodes' ∧ List.length nodes = List.length nodes'.
Proof.
  intros Hf Hf' Hsame.
  exists (nodes_of_lines lines), (nodes_of_lines lines').
  assert (nodes_of_lines lines ≡ₚ nodes_of_lines lines') as Hperm.
  { apply NoDup_Permutation; [apply nodes_of_lines_NoDup..|].
    intros tok. rewrite !nodes_of_lines_elem. unfold captured_in.
    rewrite !existsb_exists. split; intros (line & Hl & Hc); exists line;
      (split; [|done]); apply list_elem_of_In; apply list_elem_of_In in Hl;
      by apply Hsame. }
  split_and!; [| |done|by rewrite Hperm].
  - unfold extract_unique_nodes_from_multiple_files. simpl. by rewrite Hf.
  - unfold extract_unique_nodes_from_multiple_files. simpl. by rewrite Hf'.
Qed.

Lemma extraction_ignores_order_and_repetition_witness :
  Samples.fs "once" = inr [Scenario.record "1" "2"; Scenario.record "2" "3"]
  ∧ Samples.fs "twice"
    = inr [Scenario.record "2" "3"; Scenario.record "1" "2"; Scenario.record "2" "3"]
  ∧ (∀ line, line ∈ [Scenario.record "1" "2"; Scenario.record "2" "3"]
             ↔ line ∈ [Scenario.record "2" "3"; Scenario.record "1" "2";
                       Scenario.record "2" "3"])
  ∧ ∃ nodes nodes',
      extract_unique_nodes_from_multiple_files Samples.fs ["once"] = ([("once", nodes)], [])
      ∧ extract_unique_nodes_from_multiple_files Samples.fs ["twice"]
        = ([("twice", nodes')], [])
      ∧ nodes ≡ₚ nodes' ∧ List.length nodes = List.length nodes'.
Proof.
  assert (Samples.fs "once" = inr [Scenario.record "1" "2"; Scenario.record "2" "3"])
    as Hf by reflexivity.
  assert (Samples.fs "twice"
          = inr [Scenario.record "2" "3"; Scenario.record "1" "2";
                 Scenario.record "2" "3"]) as Hf' by reflexivity.
  assert (∀ line, line ∈ [Scenario.record "1" "2"; Scenario.record "2" "3"]
                  ↔ line ∈ [Scenario.record "2" "3"; Scenario.record "1" "2";
                            Scenario.record "2" "3"]) as Hsame.
  { intros line. rewrite !elem_of_cons, !elem_of_nil. tauto. }
  split_and!; [done..|].
  exact (extraction_ignores_order_and_repetition Samples.fs "once" "twice" _ _
           Hf Hf' Hsame).
Defined.

(** ** The balance analyzer: the diff, and the extractor before it *)

Section BalanceMore.
Implicit Types (nbp : list (string * list string)).

Lemma count_nodes_returns_iff nbp :
  (∃ r, count_nodes_in_partitions_and_diff nbp = inr r) ↔ nbp ≠ [].
Proof.
  split.
  - intros [r Hr] ->. discriminate.
  - intros Hne. unfold count_nodes_in_partitions_and_diff.
    pose proof (node_counts_not_nil nbp Hne) as Hnn.
    destruct (fold_left _ nbp []) as [|[k v] d]; [done|]. simpl. eauto.
Qed.

Lemma count_nodes_nil :
  count_nodes_in_partitions_and_diff [] = inl (ValueError msg_empty_max).
Proof. reflexivity. Qed.

Lemma extract_nil_iff (fs : filesystem) (files : list string) :
  (extract_unique_nodes_from_multiple_files fs files).1 = []
  ↔ readable_prefix fs files = [].
Proof.
  unfold extract_unique_nodes_from_multiple_files. rewrite extract_loop_prefix.
  split.
  - intros Hnil. destruct (readable_prefix fs files) as [|f l] eqn:E; [done|].
    exfalso. revert Hnil.
    by apply (set_loop_not_nil id (nodes_of_file fs) (f :: l)).
  - by intros ->.
Qed.

Lemma readable_prefix_nil_iff (fs : filesystem) (files : list string) :
  readable_prefix fs files ≠ [] ↔ ∃ f rest, files = f :: rest ∧ readable fs f.
Proof.
  destruct files as [|f rest]; simpl.
  - split; [done | by intros (? & ? & ? & _)].
  - unfold is_readable. destruct (fs f) as [e|lines] eqn:E.
    + split; [done|]. intros (f' & rest' & [= <- <-] & [lines Hl]). congruence.
    + split; [|done]. intros _. exists f, rest. split; [done | by exists lines].
Qed.

End BalanceMore.

(** X6.  Whenever the balance analyzer returns, diff is not negative, it is
    the difference of two of the returned counts and bounds the difference
    of any two of them; it is 0 exactly when all the counts are equal. *)
Theorem diff_is_the_spread
    (nbp : list (string * list string)) (node_counts : list (string * Z)) (diff : Z) :
  count_nodes_in_partitions_and_diff nbp = inr (node_counts, diff) →
  (0 ≤ diff)%Z
  ∧ (∃ n m, n ∈ dict_values node_counts ∧ m ∈ dict_values node_counts
            ∧ diff = (n - m)%Z)
  ∧ (∀ n m, n ∈ dict_values node_counts → m ∈ dict_values node_counts →
            (n - m ≤ diff)%Z)
  ∧ (diff = 0%Z ↔
     ∀ n m, n ∈ dict_values node_counts → m ∈ dict_values node_counts → n = m).
Proof.
  unfold count_nodes_in_partitions_and_diff.
  generalize (fold_left
                (fun node_counts '(file, nodes) =>
                   dict_set file (Z.of_nat (List.length nodes)) node_counts)
                nbp []).
  intros d. destruct (dict_values d) as [|n0 rest] eqn:Hvals; [done|]. simpl.
  destruct (max_loop_spec rest n0) as [Hbig_in Hbig].
  destruct (min_loop_spec rest n0) as [Hsmall_in Hsmall].
  intros [= <- <-]. rewrite Hvals.
  split_and!.
  - specialize (Hbig _ Hsmall_in). lia.
  - eexists _, _. split_and!; [exact Hbig_in | exact Hsmall_in | reflexivity].
  - intros n m Hn Hm. specialize (Hbig n Hn). specialize (Hsmall m Hm). lia.
  - split.
    + intros Hz n m Hn Hm.
      pose proof (Hbig n Hn). pose proof (Hsmall n Hn).
      pose proof (Hbig m Hm). pose proof (Hsmall m Hm). lia.
    + intros Heq. rewrite (Heq _ _ Hbig_in Hsmall_in). lia.
Qed.

Lemma diff_is_the_spread_witness :
  count_nodes_in_partitions_and_diff Scenario.nodes_by_partition
    = inr ([("A", 2%Z); ("B", 1%Z)], 1%Z)
  ∧ (0 ≤ 1)%Z
  ∧ (∃ n m, n ∈ dict_values [("A", 2%Z); ("B", 1%Z)]
            ∧ m ∈ dict_values [("A", 2%Z); ("B", 1%Z)] ∧ 1%Z = (n - m)%Z).
Proof.
  assert (count_nodes_in_partitions_and_diff Scenario.nodes_by_partition
          = inr ([("A", 2%Z); ("B", 1%Z)], 1%Z)) as Hr
    by (vm_compute; reflexivity).
  destruct (diff_is_the_spread _ _ _ Hr) as (H0 & Hex & _).
  by split_and!.
Defined.

Lemma extract_empty_without_first_file (fs : filesystem) (files : list string) :
  (¬ ∃ f rest, files = f :: rest ∧ readable fs f) →
  (extract_unique_nodes_from_multiple_files fs files).1 = [].
Proof.
  intros Hno. rewrite <- readable_prefix_nil_iff in Hno.
  apply extract_nil_iff. destruct (readable_prefix fs files); [done|].
  exfalso. by apply Hno.
Qed.

Lemma extract_nonempty_with_first_file (fs : filesystem) (files : list string) :
  (∃ f rest, files = f :: rest ∧ readable fs f) →
  (extract_unique_nodes_from_multiple_files fs files).1 ≠ [].
Proof.
  intros Hhead. rewrite extract_nil_iff. by apply readable_prefix_nil_iff.
Qed.

(** X7.  The balance analyzer applied to the result of the extractor returns
    a value exactly when the list of files is not empty and its first file
    can be read; otherwise the extractor's mapping is empty and the analyzer
    raises the [ValueError] of [max]. *)
Theorem balance_after_extraction (fs : filesystem) (files : list string) :
  ((∃ r, count_nodes_in_partitions_and_diff
           (extract_unique_nodes_from_multiple_files fs files).1 = inr r)
   ↔ ∃ f rest, files = f :: rest ∧ readable fs f)
  ∧ ((¬ ∃ f rest, files = f :: rest ∧ readable fs f) →
     count_nodes_in_partitions_and_diff
       (extract_unique_nodes_from_multiple_files fs files).1
     = inl (ValueError msg_empty_max)).
Proof.
  split.
  - rewrite count_nodes_returns_iff. split.
    + intros Hne. apply readable_prefix_nil_iff. by rewrite <- extract_nil_iff.
    + apply extract_nonempty_with_first_file.
  - intros Hno. rewrite extract_empty_without_first_file by done.
    apply count_nodes_nil.
Qed.

(** ** The cut analyzer: the returned counters as a whole *)

Section CountersMore.
Implicit Types (nbp : list (string * list string)) (cut : list (string * Z))
  (fs : filesystem).

Lemma dict_ext {V : Type} (d1 d2 : list (string * V)) :
  NoDup (dict_keys d1) → dict_keys d1 = dict_keys d2 →
  (∀ k, dict_get k d1 = dict_get k d2) → d1 = d2.
Proof.
  revert d2. unfold dict_keys.
  induction d1 as [|[k1 v1] d1 IH]; intros [|[k2 v2] d2]; simpl; try done.
  rewrite NoDup_cons. intros [Hfresh Hnd] [= <- Hkeys] Hget.
  pose proof (Hget k1) as Hk. rewrite !decide_True in Hk by done.
  injection Hk as <-. f_equal. apply IH; [done..|].
  intros k. specialize (Hget k). destruct (decide (k = k1)) as [->|Hne]; [|done].
  assert (dict_get k1 d1 = None) as -> by by apply dict_get_None.
  symmetry. apply dict_get_None. unfold dict_keys. by rewrite <- Hkeys.
Qed.

Lemma counters_after_closed nbp lines :
  NoDup (dict_keys nbp) →
  counters_after nbp lines
  = map (fun a => (a.1, Z.of_nat (List.length (List.filter (line_crosses a.2) lines))))
        nbp.
Proof.
  intros Hnd.
  set (closed := map (fun a => (a.1, Z.of_nat (List.length (List.filter (line_crosses a.2) lines)))) nbp).
  assert (dict_keys closed = dict_keys nbp) as Hkeys.
  { unfold dict_keys, closed. by rewrite map_map. }
  apply dict_ext.
  - by rewrite counters_after_keys.
  - by rewrite counters_after_keys, Hkeys.
  - intros k. destruct (decide (k ∈ dict_keys nbp)) as [Hin|Hnin].
    + apply list_elem_of_fmap in Hin as ([P nodes] & -> & Hin). simpl.
      rewrite (counters_after_get nbp lines P nodes) by done.
      symmetry. apply dict_get_NoDup; [by rewrite Hkeys|].
      apply list_elem_of_fmap. by exists (P, nodes).
    + assert (dict_get k (counters_after nbp lines) = None) as ->.
      { apply dict_get_None. by rewrite counters_after_keys. }
      symmetry. apply dict_get_None. by rewrite Hkeys.
Qed.

Lemma filter_length_Permutation {A : Type} (f : A → bool) (l l' : list A) :
  l ≡ₚ l' → List.length (List.filter f l) = List.length (List.filter f l').
Proof.
  induction 1 as [|x l l' _ IH|x y l|l l' l'' _ IH1 _ IH2]; simpl.
  - done.
  - destruct (f x); simpl; by rewrite IH.
  - by destruct (f x), (f y).
  - by rewrite IH1.
Qed.

Lemma count_lines_no_edge nbp lines cut :
  (∀ line, line ∈ lines → edge_of_line line = None) →
  fold_left (count_line nbp) lines cut = cut.
Proof.
  revert cut. induction lines as [|line lines IH]; intros cut Hno; [done|].
  simpl. replace (count_line nbp cut line) with cut.
  - apply IH. intros l Hl. by apply Hno, list_elem_of_further.
  - specialize (Hno line (list_elem_of_here _ _)).
    unfold edge_of_line in Hno. unfold count_line.
    by destruct (re_search init_label (strip line)),
         (re_search term_label (strip line)).
Qed.

Lemma count_lines_no_edge_nil lines :
  fold_left (count_line []) lines (zero_counts []) = [].
Proof.
  change (zero_counts []) with (@nil (string * Z)).
  induction lines as [|line lines IH]; [done|]. simpl.
  replace (count_line [] [] line) with (@nil (string * Z)); [done|].
  unfold count_line.
  by destruct (re_search init_label (strip line)),
       (re_search term_label (strip line)).
Qed.

Lemma zero_counts_not_nil nbp : nbp ≠ [] → zero_counts nbp ≠ [].
Proof.
  intros Hne. unfold zero_counts.
  apply (set_loop_not_nil id (fun _ => 0%Z)). by destruct nbp.
Qed.

Lemma counters_after_not_nil nbp lines : nbp ≠ [] → counters_after nbp lines ≠ [].
Proof.
  intros Hne Hnil. apply (f_equal dict_keys) in Hnil.
  unfold counters_after in Hnil. rewrite count_lines_keys in Hnil.
  apply (zero_counts_not_nil nbp Hne). by destruct (zero_counts nbp).
Qed.

Lemma max_key_all_zero cut k rest :
  dict_keys cut = k :: rest → (∀ x n, dict_get x cut = Some n → n = 0%Z) →
  max_key cut = inr k.
Proof.
  intros Hkeys Hzero.
  destruct (max_key_first cut) as (p & before & after & c & Hmax & Hsplit & Hp & _ & Hlt).
  { by destruct cut. }
  rewrite Hmax. f_equal. destruct before as [|b before].
  - rewrite Hkeys in Hsplit. by injection Hsplit.
  - exfalso. destruct (proj2 (dict_get_is_Some b cut)) as [n Hn].
    { rewrite Hsplit. apply list_elem_of_here. }
    pose proof (Hlt b n (list_elem_of_here _ _) Hn) as Hbn.
    rewrite (Hzero _ _ Hn), (Hzero _ _ Hp) in Hbn. lia.
Qed.

End CountersMore.

(** X8.  A readable graph file in which no line holds both tokens (as when
    each record is spread over several lines) is not an error: every
    counter stays 0, the first partition is returned as the one with the
    most cut edges, and nothing is printed. *)
Theorem graph_without_edge_lines
    (fs : filesystem) (g : string) (lines : list string)
    (first : string) (nodes : list string) (others : list (string * list string)) :
  fs g = inr lines →
  (∀ line, line ∈ lines → edge_of_line line = None) →
  count_edges_in_cut_and_max_partition fs g ((first, nodes) :: others)
  = ((zero_counts ((first, nodes) :: others), Some first), [])
  ∧ ∀ P n, dict_get P (zero_counts ((first, nodes) :: others)) = Some n → n = 0%Z.
Proof.
  intros Hg Hno.
  assert (∀ P n, dict_get P (zero_counts ((first, nodes) :: others)) = Some n →
                 n = 0%Z) as Hzero.
  { intros P n Hget. eapply zero_counts_values. by apply dict_get_elem_of. }
  split; [|done].
  unfold count_edges_in_cut_and_max_partition. rewrite Hg.
  rewrite count_lines_no_edge by done.
  assert (∃ rest, dict_keys (zero_counts ((first, nodes) :: others)) = first :: rest)
    as [rest Hkeys].
  { unfold zero_counts.
    rewrite (set_loop_keys_fold id (fun _ => 0%Z)), map_id. simpl.
    assert (∀ (l seen : list string) x,
              ∃ rest,
                fold_left (fun seen x => if bool_decide (x ∈ seen) then seen
                                         else (seen ++ [x])%list) l (x :: seen)
                = x :: rest) as Hhead.
    { induction l as [|y l IH]; intros seen x; simpl; [by eexists|].
      case_bool_decide; [apply IH|]. apply (IH (seen ++ [y])%list). }
    apply Hhead. }
  by rewrite (max_key_all_zero _ first rest).
Qed.

Lemma graph_without_edge_lines_witness :
  Samples.fs "G_raw"
    = inr ["{"; field "fid" "1" +:+ ","; field "init_node" "2" +:+ ",";
           field "term_node" "3" +:+ ","; "}"]
  ∧ (∀ line, line ∈ ["{"; field "fid" "1" +:+ ","; field "init_node" "2" +:+ ",";
                     field "term_node" "3" +:+ ","; "}"] →
             edge_of_line line = None)
  ∧ count_edges_in_cut_and_max_partition Samples.fs "G_raw"
      (("A", ["1"; "2"]) :: [("B", ["3"])])
    = ((zero_counts (("A", ["1"; "2"]) :: [("B", ["3"])]), Some "A"), []).
Proof.
  assert (Samples.fs "G_raw"
          = inr ["{"; field "fid" "1" +:+ ","; field "init_node" "2" +:+ ",";
                 field "term_node" "3" +:+ ","; "}"]) as Hg by reflexivity.
  assert (∀ line, line ∈ ["{"; field "fid" "1" +:+ ","; field "init_node" "2" +:+ ",";
                          field "term_node" "3" +:+ ","; "}"] →
                  edge_of_line line = None) as Hno.
  { intros line Hl. repeat (apply elem_of_cons in Hl as [->|Hl]; [by vm_compute|]).
    by apply elem_of_nil in Hl. }
  split_and!; [done..|].
  exact (proj1 (graph_without_edge_lines Samples.fs "G_raw" _ "A" ["1"; "2"]
                  [("B", ["3"])] Hg Hno)).
Defined.

(** X9.  Counting is additive over the lines: if a graph file holds the
    lines of a first file followed by those of a second, each partition's
    counter for it is the sum of its counters for the two parts. *)
Theorem counters_add_over_chunks
    (fs : filesystem) (g g1 g2 : string) (lines1 lines2 : list string)
    (nbp : list (string * list string)) (P : string) (nodes : list string) :
  NoDup (dict_keys nbp) → (P, nodes) ∈ nbp →
  fs g1 = inr lines1 → fs g2 = inr lines2 → fs g = inr (lines1 ++ lines2)%list →
  ∃ c1 c2,
    dict_get P (count_edges_in_cut_and_max_partition fs g1 nbp).1.1 = Some c1
    ∧ dict_get P (count_edges_in_cut_and_max_partition fs g2 nbp).1.1 = Some c2
    ∧ dict_get P (count_edges_in_cut_and_max_partition fs g nbp).1.1
      = Some (c1 + c2)%Z.
Proof.
  intros Hnd Hin H1 H2 H12.
  rewrite (count_edges_readable fs g1 nbp lines1),
    (count_edges_readable fs g2 nbp lines2),
    (count_edges_readable fs g nbp (lines1 ++ lines2)) by done.
  rewrite !(counters_after_get nbp _ P nodes) by done.
  eexists _, _. split_and!; [done..|].
  f_equal. rewrite List.filter_app, length_app. lia.
Qed.

Lemma counters_add_over_chunks_witness :
  NoDup (dict_keys Scenario.nodes_by_partition)
  ∧ ("A", ["1"; "2"]) ∈ Scenario.nodes_by_partition
  ∧ Samples.fs "G1" = inr [Scenario.record "1" "2"]
  ∧ Samples.fs "G2" = inr [Scenario.record "2" "3"; Scenario.record "3" "1"]
  ∧ Samples.fs "G12"
    = inr ([Scenario.record "1" "2"]
           ++ [Scenario.record "2" "3"; Scenario.record "3" "1"])%list
  ∧ ∃ c1 c2,
      dict_get "A" (count_edges_in_cut_and_max_partition Samples.fs "G1"
                      Scenario.nodes_by_partition).1.1 = Some c1
      ∧ dict_get "A" (count_edges_in_cut_and_max_partition Samples.fs "G2"
                        Scenario.nodes_by_partition).1.1 = Some c2
      ∧ dict_get "A" (count_edges_in_cut_and_max_partition Samples.fs "G12"
                        Scenario.nodes_by_partition).1.1 = Some (c1 + c2)%Z.
Proof.
  assert (NoDup (dict_keys Scenario.nodes_by_partition)) as Hnd.
  { apply (bool_decide_unpack _). vm_compute. exact I. }
  assert (("A", ["1"; "2"]) ∈ Scenario.nodes_by_partition) as Hin
    by apply list_elem_of_here.
  assert (Samples.fs "G1" = inr [Scenario.record "1" "2"]) as H1 by reflexivity.
  assert (Samples.fs "G2" = inr [Scenario.record "2" "3"; Scenario.record "3" "1"])
    as H2 by reflexivity.
  assert (Samples.fs "G12"
          = inr ([Scenario.record "1" "2"]
                 ++ [Scenario.record "2" "3"; Scenario.record "3" "1"])%list)
    as H12 by reflexivity.
  split_and!; [done..|].
  exact (counters_add_over_chunks Samples.fs "G12" "G1" "G2" _ _ _ "A" _
           Hnd Hin H1 H2 H12).
Defined.

(** X10.  The order of the lines of the graph file does not matter: two
    readable files whose lines are a permutation of each other give the same
    counters and the same partition with the most cut edges. *)
Theorem line_order_is_irrelevant
    (fs : filesystem) (g g' : string) (lines lines' : list string)
    (nbp : list (string * list string)) :
  NoDup (dict_keys nbp) → fs g = inr lines → fs g' = inr lines' →
  lines ≡ₚ lines' →
  count_edges_in_cut_and_max_partition fs g nbp
  = count_edges_in_cut_and_max_partition fs g' nbp.
Proof.
  intros Hnd Hg Hg' Hperm.
  assert (counters_after nbp lines = counters_after nbp lines') as Heq.
  { rewrite !counters_after_closed by done. apply map_ext. intros [P nodes]. simpl.
    by rewrite (filter_length_Permutation _ lines lines'). }
  unfold count_edges_in_cut_and_max_partition. rewrite Hg, Hg'.
  fold (counters_after nbp lines). fold (counters_after nbp lines').
  by rewrite Heq.
Qed.

Lemma line_order_is_irrelevant_witness :
  NoDup (dict_keys Scenario.nodes_by_partition)
  ∧ Samples.fs "G12"
    = inr [Scenario.record "1" "2"; Scenario.record "2" "3"; Scenario.record "3" "1"]
  ∧ Samples.fs "G21"
    = inr [Scenario.record "3" "1"; Scenario.record "1" "2"; Scenario.record "2" "3"]
  ∧ [Scenario.record "1" "2"; Scenario.record "2" "3"; Scenario.record "3" "1"]
    ≡ₚ [Scenario.record "3" "1"; Scenario.record "1" "2"; Scenario.record "2" "3"]
  ∧ count_edges_in_cut_and_max_partition Samples.fs "G12" Scenario.nodes_by_partition
    = count_edges_in_cut_and_max_partition Samples.fs "G21" Scenario.nodes_by_partition.
Proof.
  assert (NoDup (dict_keys Scenario.nodes_by_partition)) as Hnd.
  { apply (bool_decide_unpack _). vm_compute. exact I. }
  assert (Samples.fs "G12"
          = inr [Scenario.record "1" "2"; Scenario.record "2" "3";
                 Scenario.record "3" "1"]) as Hg by reflexivity.
  assert (Samples.fs "G21"
          = inr [Scenario.record "3" "1"; Scenario.record "1" "2";
                 Scenario.record "2" "3"]) as Hg' by reflexivity.
  assert ([Scenario.record "1" "2"; Scenario.record "2" "3"; Scenario.record "3" "1"]
          ≡ₚ [Scenario.record "3" "1"; Scenario.record "1" "2";
              Scenario.record "2" "3"]) as Hperm.
  { symmetry. apply (Permutation_cons_append [_; _]). }
  split_and!; [done..|].
  exact (line_order_is_irrelevant Samples.fs "G12" "G21" _ _ _ Hnd Hg Hg' Hperm).
Defined.

(** X11.  For the per-edge loop the direction of an edge does not matter,
    and a self-loop counts for no partition: swapping the two endpoints
    gives the same counters, and an edge (u, u) leaves them unchanged. *)
Theorem edges_are_undirected_and_loops_ignored
    (u v : string) (nbp : list (string * list string)) (cut : list (string * Z)) :
  count_edge u v nbp cut = count_edge v u nbp cut
  ∧ count_edge u u nbp cut = cut.
Proof.
  split.
  - revert cut. induction nbp as [|[file nodes] nbp IH]; intros cut; [done|].
    by rewrite !count_edge_cons, xorb_comm, IH.
  - revert cut. induction nbp as [|[file nodes] nbp IH]; intros cut; [done|].
    by rewrite count_edge_cons, xorb_nilpotent, IH.
Qed.

(** X12.  The cut analyzer returns no partition exactly when the graph file
    cannot be read or there is no partition at all, and these are the only
    cases in which it prints a line. *)
Theorem argmax_absent_iff
    (fs : filesystem) (g : string) (nbp : list (string * list string)) :
  ((count_edges_in_cut_and_max_partition fs g nbp).1.2 = None
   ↔ (∃ e, fs g = inl e) ∨ nbp = [])
  ∧ ((count_edges_in_cut_and_max_partition fs g nbp).2 ≠ []
     ↔ (∃ e, fs g = inl e) ∨ nbp = []).
Proof.
  unfold count_edges_in_cut_and_max_partition.
  destruct (fs g) as [e|lines] eqn:Hg; simpl.
  { split; (split; [intros _; left; by exists e | done]). }
  fold (counters_after nbp lines).
  destruct (decide (nbp = [])) as [->|Hne].
  { change (counters_after [] lines) with
      (fold_left (count_line []) lines (zero_counts [])).
    rewrite count_lines_no_edge_nil. simpl.
    split; (split; [intros _; by right | done]). }
  destruct (max_key_first (counters_after nbp lines))
    as (p & before & after & c & Hmax & _); [by apply counters_after_not_nil|].
  rewrite Hmax. simpl.
  split; (split; [done | intros [[e He]|Hnil]; done]).
Qed.

(** ** The sum of the counters *)

Section Handshake.
Implicit Types (nbp : list (string * list string)).

Lemma sum_map_add {A : Type} (f h : A → Z) (l : list A) :
  fold_right Z.add 0%Z (map (fun a => (f a + h a)%Z) l)
  = (fold_right Z.add 0%Z (map f l) + fold_right Z.add 0%Z (map h l))%Z.
Proof. induction l as [|a l IH]; simpl; lia. Qed.

Lemma sum_map_zero {A : Type} (l : list A) :
  fold_right Z.add 0%Z (map (fun _ => 0%Z) l) = 0%Z.
Proof. induction l as [|a l IH]; simpl; lia. Qed.

Lemma xor_sum nbp u v :
  fold_right Z.add 0%Z
    (map (fun a => if xorb (node_in u a.2) (node_in v a.2) then 1%Z else 0%Z) nbp)
  = (Z.of_nat (holders nbp u) + Z.of_nat (holders nbp v)
     - 2 * Z.of_nat (List.length
                       (List.filter (fun a => node_in u a.2 && node_in v a.2) nbp)))%Z.
Proof.
  unfold holders. induction nbp as [|a nbp IH]; simpl; [done|].
  rewrite IH. destruct (node_in u a.2), (node_in v a.2); simpl; lia.
Qed.

Lemma both_le_holders nbp u v :
  (List.length (List.filter (fun a => node_in u a.2 && node_in v a.2) nbp)
   ≤ holders nbp u)%nat.
Proof.
  unfold holders. induction nbp as [|a nbp IH]; simpl; [done|].
  destruct (node_in u a.2), (node_in v a.2); simpl; lia.
Qed.

Lemma together_iff_both nbp u v :
  together nbp u v = true
  ↔ 0 < List.length (List.filter (fun a => node_in u a.2 && node_in v a.2) nbp).
Proof.
  unfold together. induction nbp as [|a nbp IH]; simpl; [split; [done | lia]|].
  destruct (node_in u a.2 && node_in v a.2); simpl; [split; [lia | done] | done].
Qed.

Lemma xor_sum_assigned_once nbp u v :
  holders nbp u = 1 → holders nbp v = 1 →
  fold_right Z.add 0%Z
    (map (fun a => if xorb (node_in u a.2) (node_in v a.2) then 1%Z else 0%Z) nbp)
  = if together nbp u v then 0%Z else 2%Z.
Proof.
  intros Hu Hv. rewrite xor_sum, Hu, Hv.
  pose proof (both_le_holders nbp u v) as Hle. rewrite Hu in Hle.
  pose proof (together_iff_both nbp u v) as Hiff.
  destruct (together nbp u v).
  - assert (0 < List.length (List.filter (fun a => node_in u a.2 && node_in v a.2) nbp))
      by by apply Hiff.
    lia.
  - assert (¬ 0 < List.length (List.filter (fun a => node_in u a.2 && node_in v a.2) nbp))
      by (intros H; by apply Hiff in H).
    lia.
Qed.

Lemma line_sum nbp line :
  (∀ u v, edge_of_line line = Some (u, v) →
          holders nbp u = 1 ∧ holders nbp v = 1) →
  fold_right Z.add 0%Z
    (map (fun a => if line_crosses a.2 line then 1%Z else 0%Z) nbp)
  = (2 * (if crossing_line nbp line then 1 else 0))%Z.
Proof.
  intros Hone. unfold crossing_line, line_crosses.
  unfold edge_of_line in *.
  destruct (re_search init_label (strip line)) as [u|];
    [destruct (re_search term_label (strip line)) as [v|]|].
  - destruct (Hone u v eq_refl) as [Hu Hv].
    rewrite xor_sum_assigned_once by done. by destruct (together nbp u v).
  - by rewrite sum_map_zero.
  - by rewrite sum_map_zero.
Qed.

Lemma counts_sum nbp lines :
  (∀ line u v, line ∈ lines → edge_of_line line = Some (u, v) →
               holders nbp u = 1 ∧ holders nbp v = 1) →
  fold_right Z.add 0%Z
    (map (fun a => Z.of_nat (List.length (List.filter (line_crosses a.2) lines))) nbp)
  = (2 * Z.of_nat (List.length (List.filter (crossing_line nbp) lines)))%Z.
Proof.
  induction lines as [|line lines IH]; intros Hone.
  - simpl. by rewrite sum_map_zero.
  - rewrite (map_ext _ (fun a => ((if line_crosses a.2 line then 1 else 0)
                + Z.of_nat (List.length (List.filter (line_crosses a.2) lines)))%Z)).
    2:{ intros a. simpl. destruct (line_crosses a.2 line); simpl List.length; lia. }
    rewrite sum_map_add, IH, line_sum.
    + simpl. destruct (crossing_line nbp line); simpl List.length; lia.
    + intros u v. apply Hone, list_elem_of_here.
    + intros l u v Hl. by apply Hone, list_elem_of_further.
Qed.

End Handshake.

(** X13.  When each endpoint of every edge of the graph file is in the node
    list of exactly one partition, the counters of all the partitions add up
    to twice the number of edges whose endpoints are in different
    partitions: such an edge is counted once by each of its two
    partitions, and no other edge is counted. *)
Theorem counters_sum_to_twice_the_cut
    (fs : filesystem) (g : string) (lines : list string)
    (nbp : list (string * list string)) :
  NoDup (dict_keys nbp) → fs g = inr lines →
  (∀ line u v, line ∈ lines → edge_of_line line = Some (u, v) →
               holders nbp u = 1 ∧ holders nbp v = 1) →
  sum_values (count_edges_in_cut_and_max_partition fs g nbp).1.1
  = (2 * Z.of_nat (List.length (List.filter (crossing_line nbp) lines)))%Z.
Proof.
  intros Hnd Hg Hone.
  rewrite (count_edges_readable fs g nbp lines) by done.
  rewrite counters_after_closed by done.
  unfold sum_values, dict_values. rewrite map_map. simpl.
  by apply counts_sum.
Qed.

Lemma counters_sum_to_twice_the_cut_witness :
  NoDup (dict_keys Scenario.nodes_by_partition)
  ∧ Samples.fs "G12"
    = inr [Scenario.record "1" "2"; Scenario.record "2" "3"; Scenario.record "3" "1"]
  ∧ (∀ line u v,
       line ∈ [Scenario.record "1" "2"; Scenario.record "2" "3"; Scenario.record "3" "1"] →
       edge_of_line line = Some (u, v) →
       holders Scenario.nodes_by_partition u = 1
       ∧ holders Scenario.nodes_by_partition v = 1)
  ∧ sum_values (count_edges_in_cut_and_max_partition Samples.fs "G12"
                  Scenario.nodes_by_partition).1.1
    = (2 * Z.of_nat (List.length
                       (List.filter (crossing_line Scenario.nodes_by_partition)
                          [Scenario.record "1" "2"; Scenario.record "2" "3";
                           Scenario.record "3" "1"])))%Z.
Proof.
  assert (NoDup (dict_keys Scenario.nodes_by_partition)) as Hnd.
  { apply (bool_decide_unpack _). vm_compute. exact I. }
  assert (Samples.fs "G12"
          = inr [Scenario.record "1" "2"; Scenario.record "2" "3";
                 Scenario.record "3" "1"]) as Hg by reflexivity.
  assert (∀ line u v,
            line ∈ [Scenario.record "1" "2"; Scenario.record "2" "3";
                    Scenario.record "3" "1"] →
            edge_of_line line = Some (u, v) →
            holders Scenario.nodes_by_partition u = 1
            ∧ holders Scenario.nodes_by_partition v = 1) as Hone.
  { intros line u v Hl.
    repeat (apply elem_of_cons in Hl as [->|Hl];
            [vm_compute; intros [= <- <-]; by split|]).
    by apply elem_of_nil in Hl. }
  split_and!; [done..|].
  exact (counters_sum_to_twice_the_cut Samples.fs "G12" _ _ Hnd Hg Hone).
Defined.

(** ** The script *)

Section ScriptFacts.
Implicit Types (fs : filesystem) (nbp : list (string * list string)).

Lemma count_edges_unreadable fs g nbp e :
  fs g = inl e →
  count_edges_in_cut_and_max_partition fs g nbp
  = ((zero_counts nbp, None),
     ["Error processing the original graph file: " +:+ str e]).
Proof. intros Hg. unfold count_edges_in_cut_and_max_partition. by rewrite Hg. Qed.

Lemma count_edges_returns_argmax fs g nbp lines :
  fs g = inr lines → nbp ≠ [] →
  ∃ p c,
    count_edges_in_cut_and_max_partition fs g nbp
      = ((counters_after nbp lines, Some p), [])
    ∧ dict_get p (counters_after nbp lines) = Some c.
Proof.
  intros Hg Hne.
  destruct (max_key_first (counters_after nbp lines))
    as (p & before & after & c & Hmax & _ & Hp & _); [by apply counters_after_not_nil|].
  exists p, c. split; [|done].
  unfold count_edges_in_cut_and_max_partition. rewrite Hg.
  fold (counters_after nbp lines). by rewrite Hmax.
Qed.

Lemma report_without_first_file fs g files :
  (¬ ∃ f rest, files = f :: rest ∧ readable fs f) →
  report fs g files
  = ((extract_unique_nodes_from_multiple_files fs files).2,
     Some (ValueError msg_empty_max)).
Proof.
  intros Hno. unfold report.
  pose proof (extract_empty_without_first_file fs files Hno) as Hnil.
  destruct (extract_unique_nodes_from_multiple_files fs files) as [nbp out].
  simpl in *. by rewrite Hnil.
Qed.

Lemma report_with_first_file fs g files :
  (∃ f rest, files = f :: rest ∧ readable fs f) →
  (∀ e, fs g = inl e → (report fs g files).2 = Some KeyError)
  ∧ (∀ lines, fs g = inr lines → (report fs g files).2 = None).
Proof.
  intros Hhead. unfold report.
  pose proof (extract_nonempty_with_first_file fs files Hhead) as Hne.
  pose proof (proj2 (count_nodes_returns_iff _) Hne) as [[node_counts diff] Hcount].
  destruct (extract_unique_nodes_from_multiple_files fs files) as [nbp out].
  simpl in *. rewrite Hcount. split.
  - intros e Hg. by rewrite (count_edges_unreadable fs g nbp e).
  - intros lines Hg.
    destruct (count_edges_returns_argmax fs g nbp lines Hg Hne) as (p & c & -> & Hp).
    by rewrite Hp.
Qed.

End ScriptFacts.

(** X14.  How the script ends.  It runs to its last [print] exactly when the
    first partition file and the graph file can be read.  When the first
    partition file cannot be read (or no file is listed) it stops with the
    [ValueError] of [max], having printed only what the extractor printed.
    When the first partition file can be read and the graph file cannot, it
    stops with a [KeyError] in its last statement.  For the script's own
    constants the first partition file is [Partition0_0.geojson]. *)
Theorem script_outcome (fs : filesystem) (g : string) (files : list string) :
  ((report fs g files).2 = None
   ↔ (∃ f rest, files = f :: rest ∧ readable fs f) ∧ readable fs g)
  ∧ ((report fs g files).2 = Some KeyError
     ↔ (∃ f rest, files = f :: rest ∧ readable fs f) ∧ ∃ e, fs g = inl e)
  ∧ ((report fs g files).2 = Some (ValueError msg_empty_max)
     ↔ ¬ ∃ f rest, files = f :: rest ∧ readable fs f)
  ∧ ((¬ ∃ f rest, files = f :: rest ∧ readable fs f) →
     (report fs g files).1 = (extract_unique_nodes_from_multiple_files fs files).2)
  ∧ ((script fs).2 = None
     ↔ readable fs "Partition0_0.geojson" ∧ readable fs original_graph_file).
Proof.
  assert (((report fs g files).2 = None
           ↔ (∃ f rest, files = f :: rest ∧ readable fs f) ∧ readable fs g)
          ∧ ((report fs g files).2 = Some KeyError
             ↔ (∃ f rest, files = f :: rest ∧ readable fs f) ∧ ∃ e, fs g = inl e)
          ∧ ((report fs g files).2 = Some (ValueError msg_empty_max)
             ↔ ¬ ∃ f rest, files = f :: rest ∧ readable fs f)
          ∧ ((¬ ∃ f rest, files = f :: rest ∧ readable fs f) →
             (report fs g files).1
             = (extract_unique_nodes_from_multiple_files fs files).2)) as Hgen.
  { destruct (decide (readable_prefix fs files = [])) as [Hnil|Hne].
    - assert (¬ ∃ f rest, files = f :: rest ∧ readable fs f) as Hno.
      { rewrite <- readable_prefix_nil_iff. by intros ?. }
      rewrite (report_without_first_file fs g files Hno). simpl.
      split_and!; [split; [done | tauto] | split; [done | tauto] | done | done].
    - apply readable_prefix_nil_iff in Hne as Hhead.
      destruct (report_with_first_file fs g files Hhead) as [Hbad Hgood].
      destruct (fs g) as [e|lines] eqn:Hg.
      + rewrite (Hbad e eq_refl).
        split_and!; [| |split; [done | tauto]|tauto].
        * split; [done|]. intros [_ [l Hl]]. congruence.
        * split; [|done]. intros _. split; [done | by exists e].
      + rewrite (Hgood lines eq_refl).
        split_and!; [| |split; [done | tauto]|tauto].
        * split; [|done]. intros _. split; [done | by exists lines].
        * split; [done|]. intros [_ [e He]]. congruence. }
  destruct Hgen as (H1 & H2 & H3 & H4). split_and!; [done..|].
  clear H1 H2 H3 H4.
  assert (((report fs original_graph_file Report.files).2 = None
           ↔ (∃ f rest, Report.files = f :: rest ∧ readable fs f)
             ∧ readable fs original_graph_file)) as Hscript.
  { destruct (decide (readable_prefix fs Report.files = [])) as [Hnil|Hne].
    - assert (¬ ∃ f rest, Report.files = f :: rest ∧ readable fs f) as Hno.
      { rewrite <- readable_prefix_nil_iff. by intros ?. }
      rewrite (report_without_first_file fs _ _ Hno). simpl.
      split; [done | tauto].
    - apply readable_prefix_nil_iff in Hne as Hhead.
      destruct (report_with_first_file fs original_graph_file _ Hhead) as [Hbad Hgood].
      destruct (fs original_graph_file) as [e|lines] eqn:Hg.
      + rewrite (Hbad e eq_refl). split; [done|]. intros [_ [l Hl]]. congruence.
      + rewrite (Hgood lines eq_refl). split; [|done]. intros _.
        split; [done | by exists lines]. }
  unfold script. rewrite Hscript. split.
  - intros [(f & rest & [= <- _] & Hr) Hg]. done.
  - intros [Hr Hg]. split; [|done]. by eexists _, _.
Qed.

(** ** The generator: what a returned graph looks like *)

Section GeneratorMore.
Context {float : Type}.
Implicit Types (rnd : random_source float) (population : list Z)
  (draws : list (nat * nat)) (edges : gset (Z * Z))
  (nodes : list (Z * (float * float))).

Lemma edges_loop_size population M draws edges edges' :
  (Z.of_nat (size edges) ≤ Z.max 0 M)%Z →
  edges_loop population M draws edges = Return edges' →
  Z.of_nat (size edges') = Z.max 0 M.
Proof.
  revert edges. induction draws as [|draw draws IH]; intros edges Hle;
    cbn [edges_loop].
  - destruct (Z.ltb_spec (Z.of_nat (size edges)) M); [by destruct (Nat.ltb _ _)|].
    intros [= <-]. lia.
  - destruct (Z.ltb_spec (Z.of_nat (size edges)) M) as [Hlt|Hge];
      [|intros [= <-]; lia].
    destruct (Nat.ltb _ _); [done|].
    destruct (random_sample2 population draw) as [[a b]|]; [|done].
    destruct (bool_decide ((a, b) ∉ edges)) eqn:E1; simpl; [|by apply IH].
    destruct (bool_decide ((b, a) ∉ edges)) eqn:E2; simpl; [|by apply IH].
    apply IH. apply bool_decide_eq_true in E1.
    rewrite size_union, size_singleton by (by apply disjoint_singleton_l). lia.
Qed.

Lemma random_sample2_elem population draw a b :
  random_sample2 population draw = Some (a, b) → a ∈ population ∧ b ∈ population.
Proof.
  destruct draw as [i j]. unfold random_sample2.
  destruct (population !! i) as [x|] eqn:Hi; [|done].
  destruct (population !! j) as [y|] eqn:Hj; [|done].
  destruct (Nat.eqb i j); [done|]. intros [= <- <-].
  split; by eapply list_elem_of_lookup_2.
Qed.

Lemma edges_loop_within population M draws edges edges' :
  (∀ a b, (a, b) ∈ edges → a ∈ population ∧ b ∈ population) →
  edges_loop population M draws edges = Return edges' →
  ∀ a b, (a, b) ∈ edges' → a ∈ population ∧ b ∈ population.
Proof.
  revert edges. induction draws as [|draw draws IH]; intros edges Hin;
    cbn [edges_loop].
  - destruct (_ <? _)%Z; [by destruct (Nat.ltb _ _) | by intros [= <-]].
  - destruct (_ <? _)%Z; [|by intros [= <-]].
    destruct (Nat.ltb _ _); [done|].
    destruct (random_sample2 population draw) as [[x y]|] eqn:Hd; [|done].
    destruct (_ && _); apply IH; [|done].
    intros a b. rewrite elem_of_union, elem_of_singleton.
    intros [[= -> ->]|Hab]; [by eapply random_sample2_elem | by apply Hin].
Qed.

Lemma edges_loop_Raise_small population M draws edges e :
  edges_loop population M draws edges = Raise e → List.length population < 2.
Proof.
  revert edges. induction draws as [|draw draws IH]; intros edges;
    cbn [edges_loop].
  - destruct (_ <? _)%Z; [|done].
    destruct (Nat.ltb_spec (List.length population) 2); done.
  - destruct (_ <? _)%Z; [|done].
    destruct (Nat.ltb_spec (List.length population) 2); [done|].
    destruct (random_sample2 population draw) as [[a b]|]; [|done].
    destruct (_ && _); apply IH.
Qed.

Lemma edges_loop_nothing_to_do population M draws :
  (M ≤ 0)%Z → edges_loop population M draws ∅ = Return ∅.
Proof.
  intros HM. destruct draws; cbn [edges_loop]; rewrite size_empty;
    by destruct (Z.ltb_spec (Z.of_nat 0) M); [lia|].
Qed.

Lemma edges_loop_small_population population M draws :
  (0 < M)%Z → List.length population < 2 →
  edges_loop population M draws ∅ = Raise (ValueError msg_sample).
Proof.
  intros HM Hpop. destruct draws; cbn [edges_loop]; rewrite size_empty;
    (destruct (Z.ltb_spec (Z.of_nat 0) M); [|lia]);
    by destruct (Nat.ltb_spec (List.length population) 2); [|lia].
Qed.

Lemma range1_elem (N a : Z) : a ∈ range1 N ↔ (1 ≤ a ≤ N)%Z.
Proof.
  unfold range1. rewrite list_elem_of_fmap. split.
  - intros (k & -> & Hk). apply elem_of_seq in Hk. lia.
  - intros Ha. exists (Z.to_nat a). split; [lia|]. apply elem_of_seq. lia.
Qed.

Lemma range1_length (N : Z) : List.length (range1 N) = Z.to_nat N.
Proof. unfold range1. by rewrite length_map, length_seq. Qed.

Lemma dict_get_tabulated (h : Z → float * float) (l : list Z) (a : Z) :
  dict_get a (map (fun i => (i, h i)) l) = if bool_decide (a ∈ l) then Some (h a) else None.
Proof.
  induction l as [|i l IH]; simpl; [done|].
  destruct (decide (a = i)) as [->|Hne].
  - by rewrite bool_decide_eq_true_2 by apply list_elem_of_here.
  - rewrite IH. apply option_eq. intros v.
    do 2 case_bool_decide; try done; exfalso.
    + by apply H0, list_elem_of_further.
    + apply elem_of_cons in H0 as [?|?]; done.
Qed.

Lemma make_features_shape rnd nodes k (l : list (Z * Z)) fs :
  make_features rnd nodes k l = Return fs →
  map fid fs = map (fun i => (Z.of_nat i + 1)%Z) (seq k (List.length l))
  ∧ (∀ f, f ∈ fs → cat f = fid f
          ∧ dict_get (init_node f) nodes = Some (coordinates f).1
          ∧ dict_get (term_node f) nodes = Some (coordinates f).2).
Proof.
  revert k fs. induction l as [|[a b] l IH]; intros k fs; simpl.
  - intros [= <-]. split; [done|]. intros f Hf. by apply elem_of_nil in Hf.
  - destruct (dict_get a nodes) as [start|] eqn:Ha; [|done].
    destruct (dict_get b nodes) as [stop|] eqn:Hb; [|done].
    destruct (make_features rnd nodes (S k) l) as [fs'| |] eqn:E; try done.
    intros [= <-]. destruct (IH _ _ E) as [Hfid Hall]. simpl. split.
    + by rewrite Hfid.
    + intros f. rewrite elem_of_cons. intros [->|Hf]; [done | by apply Hall].
Qed.

Lemma make_features_returns rnd nodes k (l : list (Z * Z)) :
  (∀ a b, (a, b) ∈ l → is_Some (dict_get a nodes) ∧ is_Some (dict_get b nodes)) →
  ∃ fs, make_features rnd nodes k l = Return fs.
Proof.
  revert k. induction l as [|[a b] l IH]; intros k Hin; simpl; [by eexists|].
  destruct (Hin a b) as [[start ->] [stop ->]]; [apply list_elem_of_here|].
  destruct (IH (S k)) as [fs ->]; [|by eexists].
  intros x y Hxy. by apply Hin, list_elem_of_further.
Qed.

(** The three stages of a call whose test has passed. *)
Lemma generate_geojson_stages rnd N M :
  (M >? N * (N - 1) / 2)%Z = false →
  generate_geojson rnd N M
  = match edges_loop (range1 N) M (sample_draws rnd) ∅ with
    | Raise e => Raise e
    | NoDraw => NoDraw
    | Return edges =>
        match make_features rnd
                (map (fun i => (i, node_coordinates rnd i)) (range1 N)) 0
                (elements edges) with
        | Raise e => Raise e
        | NoDraw => NoDraw
        | Return fs => Return {| type := "FeatureCollection"; features := fs |}
        end
    end.
Proof.
  intros Hguard. unfold generate_geojson. rewrite Hguard.
  unfold dict_keys. rewrite map_map. simpl. by rewrite map_id.
Qed.

End GeneratorMore.

Section GeneratorStages.
Context {float : Type}.
Implicit Types (rnd : random_source float).

Lemma generate_geojson_Return_stages rnd N M g :
  generate_geojson rnd N M = Return g →
  (M >? N * (N - 1) / 2)%Z = false
  ∧ type g = "FeatureCollection"
  ∧ ∃ edges,
      edges_loop (range1 N) M (sample_draws rnd) ∅ = Return edges
      ∧ make_features rnd (map (fun i => (i, node_coordinates rnd i)) (range1 N)) 0
          (elements edges) = Return (features g).
Proof.
  intros Hg. destruct (M >? N * (N - 1) / 2)%Z eqn:Hguard.
  { unfold generate_geojson in Hg. by rewrite Hguard in Hg. }
  rewrite generate_geojson_stages in Hg by done.
  destruct (edges_loop _ M (sample_draws rnd) ∅) as [edges| |]; try done.
  destruct (make_features rnd _ 0 (elements edges)) as [fs| |] eqn:Hfs; try done.
  injection Hg as <-. split_and!; [done..|]. by exists edges.
Qed.

Lemma guard_passes_nonpositive (N M : Z) :
  (M ≤ 0)%Z → (M >? N * (N - 1) / 2)%Z = false.
Proof.
  intros HM. destruct (M >? N * (N - 1) / 2)%Z eqn:E; [|done].
  apply guard_exact in E. nia.
Qed.

End GeneratorStages.

(** X15.  A returned graph has exactly the requested number of edges (none
    when the request is zero or negative); its features are numbered 1, 2,
    ... in their order, [cat] repeats [fid], and the collection is typed
    [FeatureCollection]. *)
Theorem generated_graph_has_requested_size {float : Type}
    (rnd : random_source float) (N M : Z) (g : geojson float) :
  generate_geojson rnd N M = Return g →
  Z.of_nat (List.length (features g)) = Z.max 0 M
  ∧ map fid (features g)
    = map (fun i => (Z.of_nat i + 1)%Z) (seq 0 (List.length (features g)))
  ∧ (∀ f, f ∈ features g → cat f = fid f)
  ∧ type g = "FeatureCollection".
Proof.
  intros Hg.
  apply generate_geojson_Return_stages in Hg as (_ & Htype & edges & Hloop & Hfs).
  pose proof (make_features_endpoints _ _ _ _ _ Hfs) as Hends.
  assert (List.length (features g) = size edges) as Hlen.
  { rewrite <- (length_map endpoints), Hends. done. }
  apply make_features_shape in Hfs as [Hfid Hall].
  split_and!; [| |by intros f Hf; apply Hall|done].
  - rewrite Hlen. apply (edges_loop_size _ _ _ _ _ ltac:(rewrite size_empty; lia) Hloop).
  - rewrite Hfid. do 2 f_equal. by rewrite Hlen.
Qed.

Lemma generated_graph_has_requested_size_witness :
  generate_geojson small_source 4 2 = Return small_graph
  ∧ Z.of_nat (List.length (features small_graph)) = Z.max 0 2
  ∧ map fid (features small_graph)
    = map (fun i => (Z.of_nat i + 1)%Z) (seq 0 (List.length (features small_graph))).
Proof.
  assert (generate_geojson small_source 4 2 = Return small_graph) as Hg
    by (vm_compute; reflexivity).
  destruct (generated_graph_has_requested_size small_source 4 2 small_graph Hg)
    as (Hlen & Hfid & _).
  by split_and!.
Defined.

(** X16.  Every edge of a returned graph joins two of the nodes 1..N, and
    its geometry is made of the coordinates drawn for these two nodes, so
    the edges that share a node share its coordinates. *)
Theorem generated_edges_join_the_nodes {float : Type}
    (rnd : random_source float) (N M : Z) (g : geojson float) :
  generate_geojson rnd N M = Return g →
  ∀ f, f ∈ features g →
    (1 ≤ init_node f ≤ N)%Z ∧ (1 ≤ term_node f ≤ N)%Z
    ∧ coordinates f
      = (node_coordinates rnd (init_node f), node_coordinates rnd (term_node f)).
Proof.
  intros Hg f Hf.
  apply generate_geojson_Return_stages in Hg as (_ & _ & edges & Hloop & Hfs).
  pose proof (make_features_endpoints _ _ _ _ _ Hfs) as Hends.
  assert ((init_node f, term_node f) ∈ edges) as Hin.
  { apply elem_of_elements. rewrite <- Hends. apply list_elem_of_fmap. by exists f. }
  destruct (edges_loop_within _ _ _ _ _
              ltac:(intros a b Hab; by apply not_elem_of_empty in Hab) Hloop _ _ Hin)
    as [Hi Ht].
  apply make_features_shape in Hfs as [_ Hall].
  destruct (Hall f Hf) as (_ & Hstart & Hstop).
  rewrite dict_get_tabulated, bool_decide_eq_true_2 in Hstart by done.
  rewrite dict_get_tabulated, bool_decide_eq_true_2 in Hstop by done.
  apply range1_elem in Hi, Ht. split_and!; [lia..|].
  destruct (coordinates f) as [start stop]. simpl in *. congruence.
Qed.

Lemma generated_edges_join_the_nodes_witness :
  generate_geojson small_source 4 2 = Return small_graph
  ∧ ∀ f, f ∈ features small_graph →
      (1 ≤ init_node f ≤ 4)%Z ∧ (1 ≤ term_node f ≤ 4)%Z
      ∧ coordinates f
        = (node_coordinates small_source (init_node f),
           node_coordinates small_source (term_node f)).
Proof.
  assert (generate_geojson small_source 4 2 = Return small_graph) as Hg
    by (vm_compute; reflexivity).
  split; [done|].
  exact (generated_edges_join_the_nodes small_source 4 2 small_graph Hg).
Defined.

(** X17.  The only exceptions a call can raise are the two [ValueError]s: the
    one of the test on the edge count, and the one of [random.sample], which
    is raised exactly when the node count is negative while the edge count
    is at least 1 and passes the test.  In particular the look-ups of the
    node coordinates never fail. *)
Theorem generator_exceptions {float : Type}
    (rnd : random_source float) (N M : Z) :
  (∀ e, generate_geojson rnd N M = Raise e →
        e = ValueError msg_too_many ∨ e = ValueError msg_sample)
  ∧ (generate_geojson rnd N M = Raise (ValueError msg_sample)
     ↔ (N ≤ -1)%Z ∧ (1 ≤ M)%Z ∧ (2 * M ≤ N * (N - 1))%Z).
Proof.
  destruct (M >? N * (N - 1) / 2)%Z eqn:Hguard.
  { assert (generate_geojson rnd N M = Raise (ValueError msg_too_many)) as ->.
    { unfold generate_geojson. by rewrite Hguard. }
    apply guard_exact in Hguard. split; [intros e [= <-]; by left|].
    split; [done | lia]. }
  assert (¬ (2 * M > N * (N - 1))%Z) as Hpass.
  { intros H. apply guard_exact in H. congruence. }
  rewrite generate_geojson_stages by done.
  destruct (edges_loop (range1 N) M (sample_draws rnd) ∅) as [edges|e|] eqn:Hloop.
  - destruct (make_features_returns rnd
                (map (fun i => (i, node_coordinates rnd i)) (range1 N)) 0
                (elements edges)) as [fs ->].
    { intros a b Hab. apply elem_of_elements in Hab.
      destruct (edges_loop_within _ _ _ _ _
                  ltac:(intros x y Hxy; by apply not_elem_of_empty in Hxy)
                  Hloop _ _ Hab) as [Ha Hb].
      rewrite !dict_get_tabulated, !bool_decide_eq_true_2 by done. eauto. }
    split; [done|]. split; [done|]. intros (HN & HM & _).
    rewrite edges_loop_small_population in Hloop; [done | lia |].
    rewrite range1_length. lia.
  - pose proof (edges_loop_Raise_small _ _ _ _ _ Hloop) as Hsmall.
    apply edges_loop_Raise in Hloop as Hloop'. subst e.
    split; [intros e [= <-]; by right|]. split; [|done]. intros _.
    rewrite range1_length in Hsmall.
    destruct (Z.le_gt_cases M 0) as [HM|HM].
    { by rewrite edges_loop_nothing_to_do in Hloop. }
    nia.
  - split; [done|]. split; [done|]. intros (HN & HM & _).
    rewrite edges_loop_small_population in Hloop; [done | lia |].
    rewrite range1_length. lia.
Qed.

(** X18.  A request for zero or fewer edges is always served with an empty
    collection, whatever the node count (negative ones included) and
    without any use of [random.sample]. *)
Theorem nonpositive_edge_count_gives_empty_graph {float : Type}
    (rnd : random_source float) (N M : Z) :
  (M ≤ 0)%Z →
  generate_geojson rnd N M = Return {| type := "FeatureCollection"; features := [] |}.
Proof.
  intros HM. rewrite generate_geojson_stages by by apply guard_passes_nonpositive.
  rewrite edges_loop_nothing_to_do by done.
  by rewrite elements_empty.
Qed.

Lemma nonpositive_edge_count_gives_empty_graph_witness :
  (-3 ≤ 0)%Z
  ∧ generate_geojson small_source (-5) (-3)
    = Return {| type := "FeatureCollection"; features := [] |}.
Proof.
  assert (-3 ≤ 0)%Z as HM by lia.
  split; [done|].
  exact (nonpositive_edge_count_gives_empty_graph small_source (-5) (-3) HM).
Defined.

(** ** The generator: a passing request can be served *)

Section GeneratorProgress.
Implicit Types (population : list Z) (draws : list (nat * nat))
  (edges : gset (Z * Z)).

(** Pairs of positions [(i, j)] with [start ≤ i < start + count] and
    [i < j < n]. *)
Lemma pairs_from_elem (n start count : nat) (i j : nat) :
  (i, j) ∈ flat_map (fun i => map (fun j => (i, j)) (seq (S i) (n - S i)))
             (seq start count)
  ↔ (start ≤ i < start + count)%nat ∧ (i < j < n)%nat.
Proof.
  rewrite list_elem_of_In, in_flat_map. split.
  - intros (k & Hk & Hin). apply in_seq in Hk.
    apply in_map_iff in Hin as (j' & [= <- <-] & Hj). apply in_seq in Hj. lia.
  - intros [Hi Hj]. exists i. split; [apply in_seq; lia|].
    apply in_map_iff. exists j. split; [done|]. apply in_seq. lia.
Qed.

Lemma pairs_from_NoDup (n start count : nat) :
  NoDup (flat_map (fun i => map (fun j => (i, j)) (seq (S i) (n - S i)))
           (seq start count)).
Proof.
  revert start. induction count as [|count IH]; intros start; simpl.
  - apply NoDup_nil_2.
  - apply NoDup_app. split_and!.
    + apply (NoDup_fmap_2 (fun j => (start, j))), NoDup_seq.
    + intros [i j] Hin Hin'. apply list_elem_of_fmap in Hin as (j' & [= -> ->] & _).
      apply pairs_from_elem in Hin'. lia.
    + apply IH.
Qed.

Lemma pairs_from_length (n start count : nat) :
  start + count = n →
  2 * List.length (flat_map (fun i => map (fun j => (i, j)) (seq (S i) (n - S i)))
                     (seq start count))
  = count * (count - 1).
Proof.
  revert start. induction count as [|count IH]; intros start Hn; simpl; [done|].
  rewrite length_app, length_map, length_seq.
  specialize (IH (S start) ltac:(lia)).
  replace (n - S start) with count by lia.
  rewrite Nat.sub_0_r. destruct count as [|c]; [simpl in *; lia|].
  simpl in IH |- *. nia.
Qed.

Lemma all_pairs_elem (n i j : nat) : (i, j) ∈ all_pairs n ↔ (i < j < n)%nat.
Proof. unfold all_pairs. rewrite pairs_from_elem. lia. Qed.

Lemma all_pairs_NoDup (n : nat) : NoDup (all_pairs n).
Proof. apply pairs_from_NoDup. Qed.

Lemma all_pairs_length (n : nat) : 2 * List.length (all_pairs n) = n * (n - 1).
Proof. unfold all_pairs. by apply pairs_from_length. Qed.

Lemma random_sample2_ordered population i j :
  (i < j < List.length population)%nat →
  ∃ a b, random_sample2 population (i, j) = Some (a, b)
         ∧ population !! i = Some a ∧ population !! j = Some b.
Proof.
  intros Hij. unfold random_sample2.
  destruct (lookup_lt_is_Some_2 population i ltac:(lia)) as [a Ha].
  destruct (lookup_lt_is_Some_2 population j ltac:(lia)) as [b Hb].
  rewrite Ha, Hb. destruct (Nat.eqb_spec i j); [lia|]. by exists a, b.
Qed.

(** Draws of ordered positions, all different, none of which gives an edge
    already present in either orientation: each draw adds an edge, so the
    loop ends as soon as there are enough of them. *)
Lemma edges_loop_progress population M draws edges :
  NoDup population → (2 ≤ List.length population)%nat →
  NoDup draws → (∀ i j, (i, j) ∈ draws → (i < j < List.length population)%nat) →
  (∀ i j a b, (i, j) ∈ draws → population !! i = Some a → population !! j = Some b →
              ((a, b) ∉ edges) ∧ ((b, a) ∉ edges)) →
  (M ≤ Z.of_nat (size edges) + Z.of_nat (List.length draws))%Z →
  ∃ edges', edges_loop population M draws edges = Return edges'.
Proof.
  intros Hpop Hlen. revert edges.
  induction draws as [|[i j] draws IH]; intros edges Hnd Hord Hfresh Hroom;
    cbn [edges_loop].
  - destruct (Z.ltb_spec (Z.of_nat (size edges)) M); [simpl in Hroom; lia|].
    by eexists.
  - destruct (Z.ltb_spec (Z.of_nat (size edges)) M); [|by eexists].
    destruct (Nat.ltb_spec (List.length population) 2); [lia|].
    apply NoDup_cons in Hnd as [Hnew Hnd].
    destruct (random_sample2_ordered population i j) as (a & b & -> & Ha & Hb).
    { apply Hord, list_elem_of_here. }
    destruct (Hfresh i j a b (list_elem_of_here _ _) Ha Hb) as [Hab Hba].
    rewrite !bool_decide_eq_true_2 by done. simpl.
    apply IH; [done| | |].
    + intros i' j' Hin. by apply Hord, list_elem_of_further.
    + intros i' j' a' b' Hin Ha' Hb'.
      destruct (Hfresh i' j' a' b' (list_elem_of_further _ _ _ Hin) Ha' Hb')
        as [Hab' Hba'].
      pose proof (Hord i j (list_elem_of_here _ _)) as Hij.
      pose proof (Hord i' j' (list_elem_of_further _ _ _ Hin)) as Hij'.
      rewrite !elem_of_union, !elem_of_singleton. split.
      * intros [[= Ea Eb]|?]; [|done]. subst a' b'.
        assert (i' = i) as -> by apply (NoDup_lookup population i' i a Hpop Ha' Ha).
        assert (j' = j) as -> by apply (NoDup_lookup population j' j b Hpop Hb' Hb).
        done.
      * intros [[= Eb Ea]|?]; [|done]. subst a' b'.
        assert (j' = i) as -> by apply (NoDup_lookup population j' i a Hpop Hb' Ha).
        assert (i' = j) as -> by apply (NoDup_lookup population i' j b Hpop Ha' Hb).
        lia.
    + rewrite size_union, size_singleton by (by apply disjoint_singleton_l).
      simpl in Hroom. lia.
Qed.

End GeneratorProgress.

(** X19.  Every request that passes the test with a node count that is not
    negative can be served: when the successive draws of [random.sample]
    run through the pairs of positions, the call returns a graph. *)
Theorem passing_request_can_be_served {float : Type}
    (rnd : random_source float) (N M : Z) :
  (0 ≤ N)%Z → (2 * M ≤ N * (N - 1))%Z →
  sample_draws rnd = all_pairs (Z.to_nat N) →
  ∃ g, generate_geojson rnd N M = Return g.
Proof.
  intros HN Hpass Hdraws.
  assert ((M >? N * (N - 1) / 2)%Z = false) as Hguard.
  { destruct (M >? N * (N - 1) / 2)%Z eqn:E; [|done].
    apply guard_exact in E. lia. }
  rewrite generate_geojson_stages by done.
  assert (∃ edges, edges_loop (range1 N) M (sample_draws rnd) ∅ = Return edges)
    as [edges Hloop].
  { destruct (Z.le_gt_cases M 0) as [HM|HM].
    { exists ∅. by apply edges_loop_nothing_to_do. }
    rewrite Hdraws. apply edges_loop_progress.
    - apply range1_NoDup.
    - rewrite range1_length. nia.
    - apply all_pairs_NoDup.
    - intros i j Hij. rewrite range1_length. by apply all_pairs_elem.
    - intros i j a b _ _ _. split; apply not_elem_of_empty.
    - rewrite size_empty.
      pose proof (all_pairs_length (Z.to_nat N)) as Hlen.
      assert (Z.of_nat (Z.to_nat N * (Z.to_nat N - 1)) = (N * (N - 1))%Z) as Hprod.
      { rewrite Nat2Z.inj_mul, Nat2Z.inj_sub by lia. lia. }
      lia. }
  rewrite Hloop.
  destruct (make_features_returns rnd
              (map (fun i => (i, node_coordinates rnd i)) (range1 N)) 0
              (elements edges)) as [fs ->]; [|by eexists].
  intros a b Hab. apply elem_of_elements in Hab.
  destruct (edges_loop_within _ _ _ _ _
              ltac:(intros x y Hxy; by apply not_elem_of_empty in Hxy)
              Hloop _ _ Hab) as [Ha Hb].
  rewrite !dict_get_tabulated, !bool_decide_eq_true_2 by done. eauto.
Qed.

Lemma passing_request_can_be_served_witness :
  (0 ≤ 10)%Z ∧ (2 * 45 ≤ 10 * (10 - 1))%Z
  ∧ sample_draws (exhaustive_source 10) = all_pairs (Z.to_nat 10)
  ∧ ∃ g, generate_geojson (exhaustive_source 10) 10 45 = Return g.
Proof.
  assert (0 ≤ 10)%Z as HN by lia.
  assert (2 * 45 ≤ 10 * (10 - 1))%Z as Hpass by lia.
  assert (sample_draws (exhaustive_source 10) = all_pairs (Z.to_nat 10)) as Hd
    by reflexivity.
  split_and!; [done..|].
  exact (passing_request_can_be_served (exhaustive_source 10) 10 45 HN Hpass Hd).
Defined.

(** ** format.py: only whitespace changes *)

Import Format.

Section FormatFacts.
Implicit Types (s old new rest t x y : string) (c : ascii) (limit : option nat).


Lemma string_append_assoc x y z : (x +:+ y) +:+ z = x +:+ y +:+ z.
Proof. induction x as [|c x IH]; [done|]. rewrite !append_cons. by rewrite IH. Qed.













(** Replacing a single character. *)
Lemma replace_char_cons a new c s :
  replace (String a "") new (String c s)
  = (if Ascii.eqb a c then new else String c "") +:+ replace (String a "") new s.
Proof.
  unfold replace. cbn [replace_go after_literal].
  destruct (Ascii.eqb a c); simpl; [|done]. by destruct s.
Qed.

Lemma replace_char_append a new x y :
  replace (String a "") new (x +:+ y)
  = replace (String a "") new x +:+ replace (String a "") new y.
Proof.
  induction x as [|c x IH]; [done|].
  rewrite append_cons, !replace_char_cons, IH. by rewrite string_append_assoc.
Qed.


End FormatFacts.

Section SubFacts.
Implicit Types (s rest t x y : string) (c : ascii).













End SubFacts.



(** X21.  The line feeds and tabs of the input play no part in the
    formatting: a line feed or a tab put anywhere in a text leaves its
    formatted text unchanged. *)
Theorem format_ignores_line_breaks_and_tabs (x y : string) :
  format_content (x +:+ LF +:+ y) = format_content (x +:+ y)
  ∧ format_content (x +:+ TAB +:+ y) = format_content (x +:+ y).
Proof.
  assert (replace LF "" (x +:+ LF +:+ y) = replace LF "" (x +:+ y)) as Hlf.
  { unfold LF. by rewrite !replace_char_append. }
  assert (replace TAB "" (replace LF "" (x +:+ TAB +:+ y))
          = replace TAB "" (replace LF "" (x +:+ y))) as Htab.
  { unfold LF, TAB. rewrite !replace_char_append.
    change (replace (String "010" "") "" (String "009" ""))
      with (String "009"%char "").
    change (replace (String "009" "") "" (String "009" "")) with "".
    by rewrite append_empty_l. }
  split; unfold format_content; cbv zeta.
  - by rewrite Hlf.
  - by rewrite Htab.
Qed.

(** ** The cut edges of a partition and the lines of its file *)

Lemma filter_length_le {A : Type} (f h : A → bool) (l : list A) :
  (∀ a, f a = true → h a = true) →
  (List.length (List.filter f l) ≤ List.length (List.filter h l))%nat.
Proof.
  intros Himp. induction l as [|a l IH]; simpl; [done|].
  destruct (f a) eqn:E.
  - rewrite (Himp a E). simpl. lia.
  - destruct (h a); simpl; lia.
Qed.

Lemma line_of_file_does_not_cross (flines : list string) (line : string) :
  line ∈ flines → line_crosses (nodes_of_lines flines) line = false.
Proof.
  intros Hin. unfold line_crosses.
  destruct (re_search init_label (strip line)) as [u|] eqn:Hu; [|done].
  destruct (re_search term_label (strip line)) as [v|] eqn:Hv; [|done].
  assert (∀ tok, captured_on tok line = true → node_in tok (nodes_of_lines flines) = true)
    as Hcap.
  { intros tok Htok. unfold node_in. apply bool_decide_eq_true_2.
    apply nodes_of_lines_elem. unfold captured_in. apply existsb_exists.
    exists line. split; [by apply list_elem_of_In | done]. }
  rewrite (Hcap u), (Hcap v); [done| |].
  - unfold captured_on. rewrite Hv. rewrite (bool_decide_eq_true_2 (Some v = Some v)) by done.
    apply orb_true_r.
  - unfold captured_on. rewrite Hu. by rewrite bool_decide_eq_true_2.
Qed.

(** X22.  A line of the graph file that also occurs in the file of a
    partition never counts for that partition: the cut counter of a
    partition is at most the number of graph lines that are not lines of its
    file, and it is 0 when every line of the graph is a line of the
    partition file (as when the graph file itself is given as a
    partition). *)
Theorem listed_lines_are_not_cut
    (fs : filesystem) (files : list string) (g : string) (lines : list string)
    (f : string) (flines : list string) :
  NoDup files → (∀ p, p ∈ files → readable fs p) → fs g = inr lines →
  f ∈ files → fs f = inr flines →
  ∃ c,
    dict_get f
      (count_edges_in_cut_and_max_partition fs g
         (extract_unique_nodes_from_multiple_files fs files).1).1.1 = Some c
    ∧ (0 ≤ c
       ≤ Z.of_nat (List.length
                     (List.filter (fun line => bool_decide (line ∉ flines)) lines)))%Z
    ∧ ((∀ line, line ∈ lines → line ∈ flines) → c = 0%Z).
Proof.
  intros Hnd Hr Hg Hf Hfl.
  rewrite extract_all_readable by done. simpl.
  set (nbp := map (fun p => (p, nodes_of_file fs p)) files).
  assert (dict_keys nbp = files) as Hkeys.
  { unfold dict_keys, nbp. rewrite map_map. apply map_id. }
  assert ((f, nodes_of_lines flines) ∈ nbp) as Hin.
  { replace (nodes_of_lines flines) with (nodes_of_file fs f)
      by (unfold nodes_of_file; by rewrite Hfl).
    apply list_elem_of_fmap. by exists f. }
  rewrite (count_edges_readable fs g nbp lines) by done.
  rewrite (counters_after_get nbp lines f (nodes_of_lines flines));
    [|by rewrite Hkeys|done].
  eexists. split; [done|].
  assert (List.length (List.filter (line_crosses (nodes_of_lines flines)) lines)
          ≤ List.length (List.filter (fun line => bool_decide (line ∉ flines)) lines))%nat
    as Hle.
  { apply filter_length_le. intros line Hc. apply bool_decide_eq_true_2.
    intros Hl. rewrite line_of_file_does_not_cross in Hc; done. }
  split; [lia|]. intros Hall.
  assert (List.filter (fun line => bool_decide (line ∉ flines)) lines = []) as Hnone.
  { clear Hle Hg. induction lines as [|line lines IH]; [done|]. simpl.
    rewrite bool_decide_eq_false_2.
    - apply IH. intros l Hl. by apply Hall, list_elem_of_further.
    - intros Hn. apply Hn, Hall, list_elem_of_here. }
  rewrite Hnone in Hle. simpl in Hle. lia.
Qed.

Lemma listed_lines_are_not_cut_witness :
  NoDup ["G"]
  ∧ (∀ p, p ∈ ["G"] → readable Scenario.fs p)
  ∧ Scenario.fs "G" = inr [Scenario.record "1" "2"; Scenario.record "2" "3"]
  ∧ "G" ∈ ["G"]
  ∧ ∃ c,
      dict_get "G"
        (count_edges_in_cut_and_max_partition Scenario.fs "G"
           (extract_unique_nodes_from_multiple_files Scenario.fs ["G"]).1).1.1 = Some c
      ∧ (0 ≤ c
         ≤ Z.of_nat (List.length
                       (List.filter
                          (fun line => bool_decide
                             (line ∉ [Scenario.record "1" "2"; Scenario.record "2" "3"]))
                          [Scenario.record "1" "2"; Scenario.record "2" "3"])))%Z
      ∧ ((∀ line, line ∈ [Scenario.record "1" "2"; Scenario.record "2" "3"] →
                  line ∈ [Scenario.record "1" "2"; Scenario.record "2" "3"]) →
         c = 0%Z).
Proof.
  assert (NoDup ["G"]) as Hnd by apply NoDup_singleton.
  assert (∀ p, p ∈ ["G"] → readable Scenario.fs p) as Hr.
  { intros p Hp. apply list_elem_of_singleton in Hp as ->. by eexists. }
  assert (Scenario.fs "G" = inr [Scenario.record "1" "2"; Scenario.record "2" "3"])
    as Hg by reflexivity.
  assert ("G" ∈ ["G"]) as Hin by apply list_elem_of_here.
  split_and!; [done..|].
  exact (listed_lines_are_not_cut Scenario.fs ["G"] "G" _ "G" _ Hnd Hr Hg Hin Hg).
Defined.
